(** * FileStem: the client synchronisation layer

    A shallow embedding of [src/hooks/useQueries.ts] and of the
    [FileStorageApp] component (upload, progress animation, download and
    deletion handlers), followed by the properties of the specification
    that concern them.

    Conventions of the embedding.
    - A JavaScript [bigint] is a [Z]; [File.size] (an unsigned integer of the
      DOM) is an [N]; the progress value, a JavaScript number, is held as the
      rational [Q] the double is equal to, and the sums of the animation
      round as binary64 sums do ([js_add], on the [spec_float] of the
      Standard Library).
    - Every call the component makes into its environment (React state
      setters, toasts, the console, timers, the actor, the query client, the
      DOM) is appended to a [trace], in program order.
    - One [step] is one task of the event loop: a handler or a callback runs
      to completion, the microtasks it queued run, then React commits the
      render and runs the effect whose dependencies changed. React commits
      at once after its own event handlers; the render of an update made in
      the reaction to a promise or in a timer is committed in a later task,
      and a timer that is due runs before it: [batch] is that schedule, the
      tasks first and the commit after them.
    - A JavaScript string is a [string] of bytes; [toLowerCase] acts on the
      letters A to Z, the only ones that matter for the extensions
      [getFileIcon] tests.
    - The copy indicator of the share link ([copiedIndex], the clipboard and
      the timers of [handleCopyLink]) shares nothing with the rest of the
      component state and is a machine of its own, [CopyLink]. *)

From Stdlib Require Import ZArith NArith QArith Qround Qabs List String Ascii Bool Lia Lqa.
From Stdlib Require Import DecimalString DecimalPos DecimalN DecimalZ SpecFloat.
Import ListNotations.

Local Open Scope string_scope.
Local Open Scope Z_scope.

(** ** Values shared by both source files *)

(** [FileMetadata] of [../backend]: the fields the component reads
    ([file.id], [file.name], [file.size]). *)
Record FileMetadata : Type := mkFileMetadata {
  id : Z;
  name : string;
  size : Z
}.

(** What a [catch] clause or an [onError] callback can receive: an instance
    of [Error] with its message, or any other thrown value. *)
Inductive Thrown : Type :=
| JsError (message : string)
| NonError (shown : string).

(** The outcome of a promise. *)
Inductive Settled (A : Type) : Type :=
| Fulfilled (value : A)
| RejectedWith (reason : Thrown).
Arguments Fulfilled {A} value.
Arguments RejectedWith {A} reason.

(** The three operations of the actor. *)
Inductive ActorCall : Type :=
| CallGetFiles
| CallAddFile (name : string) (size : Z)
| CallGetFileContent (fileId : Z).

(** The actor handle returned by [useActor]; the component only tests it for
    presence and calls through it. *)
Variant Actor : Type := backendActor.

(** An [async] function body that awaits at most one actor call: it returns
    or throws before calling, or it issues the call and continues with the
    outcome. [R] is the type of the actor's answer. *)
Inductive Promise (R A : Type) : Type :=
| Resolved (value : A)
| ThrownBeforeCall (reason : Thrown)
| Awaiting (call : ActorCall) (k : Settled R -> Settled A).
Arguments Resolved {R A} value.
Arguments ThrownBeforeCall {R A} reason.
Arguments Awaiting {R A} call k.

(** The actor calls a promise issues. *)
Definition calls_of {R A : Type} (p : Promise R A) : list ActorCall :=
  match p with
  | Awaiting c _ => [c]
  | _ => []
  end.

(** Run a promise against an actor that answers [answer]. *)
Definition settle {R A : Type} (p : Promise R A) (answer : Settled R) : Settled A :=
  match p with
  | Resolved v => Fulfilled v
  | ThrownBeforeCall t => RejectedWith t
  | Awaiting _ k => k answer
  end.

(** ** [src/hooks/useQueries.ts] *)

Module UseQueries.

Definition filesKey : list string := ["files"].

(** [useGetFiles]: [queryFn]. *)
Definition useGetFiles_queryFn (actor : option Actor)
  : Promise (list FileMetadata) (list FileMetadata) :=
  match actor with
  | None => Resolved []
  | Some _ => Awaiting CallGetFiles (fun r => r)
  end.

(** [useGetFiles]: [enabled: !!actor && !isFetching]. *)
Definition useGetFiles_enabled (actor : option Actor) (isFetching : bool) : bool :=
  match actor with
  | Some _ => negb isFetching
  | None => false
  end.

(** [useAddFile]: [mutationFn]. *)
Definition useAddFile_mutationFn (actor : option Actor) (name : string) (size : Z)
  : Promise FileMetadata FileMetadata :=
  match actor with
  | None => ThrownBeforeCall (JsError "Actor not initialized")
  | Some _ => Awaiting (CallAddFile name size) (fun r => r)
  end.

(** The value [useGetFileContent] resolves to. *)
Record FileContent : Type := mkFileContent {
  content_name : string;
  content : list Byte.byte
}.

(** [useGetFileContent]: the body of [mutationFn] after
    [await actor.getFileContent(fileId)]. The actor answers with a pair
    [[name, content]] or with nothing. *)
Definition useGetFileContent_after_await
  (r : Settled (option (string * list Byte.byte))) : Settled FileContent :=
  match r with
  | RejectedWith t => RejectedWith t
  | Fulfilled None => RejectedWith (JsError "File not found")
  | Fulfilled (Some (n, c)) => Fulfilled (mkFileContent n c)
  end.

(** [useGetFileContent]: [mutationFn]. *)
Definition useGetFileContent_mutationFn (actor : option Actor) (fileId : Z)
  : Promise (option (string * list Byte.byte)) FileContent :=
  match actor with
  | None => ThrownBeforeCall (JsError "Actor not initialized")
  | Some _ => Awaiting (CallGetFileContent fileId) useGetFileContent_after_await
  end.

End UseQueries.
Import UseQueries.

(** ** The environment of the component *)

(** A [File] of the DOM. *)
Record File : Type := mkFile {
  file_name : string;
  file_size : N
}.

(** [BigInt(file.size)]. *)
Definition BigInt (n : N) : Z := Z.of_N n.

(** [(file.size / 1024).toFixed(2)]: the quotient is exact, [toFixed] rounds
    it to hundredths, a tie going up. *)
Definition hundredths_of_kb (n : N) : N := ((n * 200 + 1024) / 2048)%N.

Definition two_digits (n : N) : string :=
  let d := NilZero.string_of_uint (N.to_uint n) in
  if (n <? 10)%N then "0" ++ d else d.

Definition toFixed2_kb (n : N) : string :=
  let h := hundredths_of_kb n in
  NilZero.string_of_uint (N.to_uint (h / 100)%N) ++ "." ++ two_digits (h mod 100)%N.

(** Calls into the environment, as they appear in the trace. *)
Inductive Effect : Type :=
| SetFileToDelete (v : option Z)
| SetUploadProgress (p : Q)
| SetIsUploading (b : bool)
| ToastSuccess (title : string) (description : option string)
| ToastError (title : string) (description : option string)
| ConsoleError (label : string) (err : Thrown)
| Call (c : ActorCall)
| InvalidateQueries (queryKey : list string)
| SetTimeout (ms : Z)
| SetInterval (ms : Z)
| ClearInterval
| OpenFileChooser
| ResetInputValue
| SaveAs (download : string) (bytes : list Byte.byte).

(** A mutation of react-query. While its status is pending, either the
    actor call is outstanding ([MPending], with the continuation of the
    [mutationFn]), or the promise of the [mutationFn] is already settled and
    its reaction is queued as a microtask ([MSettling]). *)
Inductive Mutation (R A : Type) : Type :=
| MIdle
| MPending (k : Settled R -> Settled A)
| MSettling (o : Settled A)
| MSuccess (data : A)
| MError (error : Thrown).
Arguments MIdle {R A}.
Arguments MPending {R A} k.
Arguments MSettling {R A} o.
Arguments MSuccess {R A} data.
Arguments MError {R A} error.

Definition isPending {R A : Type} (m : Mutation R A) : bool :=
  match m with
  | MPending _ | MSettling _ => true
  | _ => false
  end.

Definition isSuccess {R A : Type} (m : Mutation R A) : bool :=
  match m with
  | MSuccess _ => true
  | _ => false
  end.

(** The File Cache: the query [['files']] of the query client. *)
Record FilesQuery : Type := mkFilesQuery {
  q_data : option (list FileMetadata);
  q_invalidated : bool;
  q_fetch : option (Settled (list FileMetadata) -> Settled (list FileMetadata))
}.

(** The whole state: React state of [FileStorageApp], the result of
    [useActor], the query client, and the browser's timers and file
    chooser. *)
Record State : Type := mkState {
  mounted : bool;
  fileToDelete : option Z;
  uploadProgress : Q;
  isUploading : bool;
  actor : option Actor;
  actorFetching : bool;
  filesQuery : FilesQuery;
  addFileMutation : Mutation FileMetadata FileMetadata;
  getFileContentMutation : Mutation (option (string * list Byte.byte)) FileContent;
  chooserOpen : bool;
  interval : option Q;
  timeouts : list Z;
  trace : list Effect
}.

Definition init : State :=
  {| mounted := true;
     fileToDelete := None;
     uploadProgress := 0;
     isUploading := false;
     actor := None;
     actorFetching := false;
     filesQuery := mkFilesQuery None false None;
     addFileMutation := MIdle;
     getFileContentMutation := MIdle;
     chooserOpen := false;
     interval := None;
     timeouts := [];
     trace := [] |}.

(** [const { data: files = [] } = useGetFiles()]. *)
Definition files (s : State) : list FileMetadata :=
  match q_data (filesQuery s) with
  | Some l => l
  | None => []
  end.

(** ** Field updates and the primitive calls *)

Definition Handler : Type := State -> State.

Definition seq_handler (h1 h2 : Handler) : Handler := fun s => h2 (h1 s).
Notation "h1 ;; h2" := (seq_handler h1 h2) (at level 61, right associativity).

Definition skip : Handler := fun s => s.

Definition log (e : Effect) : Handler := fun s =>
  let '(mkState m d p u a af q am gm co iv ts tr) := s in
  mkState m d p u a af
    q am gm co iv ts (tr ++ [e]).

Definition with_mounted (b : bool) : Handler := fun s =>
  let '(mkState m d p u a af q am gm co iv ts tr) := s in
  mkState b d p u a af
    q am gm co iv ts tr.

Definition with_fileToDelete (v : option Z) : Handler := fun s =>
  let '(mkState m d p u a af q am gm co iv ts tr) := s in
  mkState m v p u a af
    q am gm co iv ts tr.

Definition with_uploadProgress (x : Q) : Handler := fun s =>
  let '(mkState m d p u a af q am gm co iv ts tr) := s in
  mkState m d x u a af
    q am gm co iv ts tr.

Definition with_isUploading (b : bool) : Handler := fun s =>
  let '(mkState m d p u a af q am gm co iv ts tr) := s in
  mkState m d p b a af
    q am gm co iv ts tr.

Definition with_actor (x : option Actor) (fetching : bool) : Handler := fun s =>
  let '(mkState m d p u a af q am gm co iv ts tr) := s in
  mkState m d p u x fetching
    q am gm co iv ts tr.

Definition with_filesQuery (x : FilesQuery) : Handler := fun s =>
  let '(mkState m d p u a af q am gm co iv ts tr) := s in
  mkState m d p u a af
    x am gm co iv ts tr.

Definition with_addFileMutation (x : Mutation FileMetadata FileMetadata) : Handler := fun s =>
  let '(mkState m d p u a af q am gm co iv ts tr) := s in
  mkState m d p u a af
    q x gm co iv ts tr.

Definition with_getFileContentMutation
  (x : Mutation (option (string * list Byte.byte)) FileContent) : Handler := fun s =>
  let '(mkState m d p u a af q am gm co iv ts tr) := s in
  mkState m d p u a af
    q am x co iv ts tr.

Definition with_chooserOpen (b : bool) : Handler := fun s =>
  let '(mkState m d p u a af q am gm co iv ts tr) := s in
  mkState m d p u a af
    q am gm b iv ts tr.

Definition with_interval (i : option Q) : Handler := fun s =>
  let '(mkState m d p u a af q am gm co iv ts tr) := s in
  mkState m d p u a af
    q am gm co i ts tr.

Definition with_timeouts (t : list Z) : Handler := fun s =>
  let '(mkState m d p u a af q am gm co iv ts tr) := s in
  mkState m d p u a af
    q am gm co iv t tr.

(** A React state setter: the call is made in any case; it changes the state
    of a mounted component only. *)
Definition when_mounted (h : Handler) : Handler := fun s =>
  if mounted s then h s else s.

Definition setFileToDelete (v : option Z) : Handler :=
  log (SetFileToDelete v) ;; when_mounted (with_fileToDelete v).

Definition setUploadProgress (p : Q) : Handler :=
  log (SetUploadProgress p) ;; when_mounted (with_uploadProgress p).

Definition setIsUploading (b : bool) : Handler :=
  log (SetIsUploading b) ;; when_mounted (with_isUploading b).

(** [toast.success], [toast.error], [console.error]. *)
Definition toast_success (title : string) (description : option string) : Handler :=
  log (ToastSuccess title description).

Definition toast_error (title : string) (description : option string) : Handler :=
  log (ToastError title description).

Definition console_error (label : string) (err : Thrown) : Handler :=
  log (ConsoleError label err).

(** [setTimeout(cb, ms)] for the one callback the component schedules (the
    reset of the transient upload state): the timer is queued with its
    delay. *)
Definition setTimeout (ms : Z) : Handler := fun s =>
  with_timeouts (timeouts s ++ [ms]) (log (SetTimeout ms) s).

(** [clearInterval(interval)]. *)
Definition clearInterval : Handler :=
  log ClearInterval ;; with_interval None.

(** ** The query client *)

(** Fetch the [['files']] query: run [queryFn] with the actor of the current
    render. *)
Definition fetch_files : Handler := fun s =>
  let q := filesQuery s in
  match useGetFiles_queryFn (actor s) with
  | Resolved l => with_filesQuery (mkFilesQuery (Some l) false None) s
  | ThrownBeforeCall _ => with_filesQuery (mkFilesQuery (q_data q) (q_invalidated q) None) s
  | Awaiting c k =>
      with_filesQuery (mkFilesQuery (q_data q) (q_invalidated q) (Some k)) (log (Call c) s)
  end.

(** [queryClient.invalidateQueries({ queryKey: ['files'] })]: the query is
    marked invalidated, and refetched when it is observed and enabled. *)
Definition invalidateQueries_files : Handler := fun s =>
  let s1 := log (InvalidateQueries filesKey) s in
  let q := filesQuery s1 in
  let s2 := with_filesQuery (mkFilesQuery (q_data q) true (q_fetch q)) s1 in
  if mounted s2 && useGetFiles_enabled (actor s2) (actorFetching s2)
  then fetch_files s2 else s2.

(** The outstanding [getFiles] call settles: on success the cache is
    replaced wholesale. *)
Definition files_settled (r : Settled (list FileMetadata)) : Handler := fun s =>
  let q := filesQuery s in
  match q_fetch q with
  | None => s
  | Some k =>
      match k r with
      | Fulfilled l => with_filesQuery (mkFilesQuery (Some l) false None) s
      | RejectedWith _ => with_filesQuery (mkFilesQuery (q_data q) (q_invalidated q) None) s
      end
  end.

(** [useActor] returns a new result; the query is fetched when that enables
    it. *)
Definition actor_changed (a : option Actor) (fetching : bool) : Handler := fun s =>
  let was := useGetFiles_enabled (actor s) (actorFetching s) in
  let s1 := with_actor a fetching s in
  if mounted s1 && negb was && useGetFiles_enabled a fetching
  then fetch_files s1 else s1.

(** [useAddFile]: [onSuccess] of the hook. *)
Definition useAddFile_onSuccess : Handler := invalidateQueries_files.

(** ** [FileStorageApp]: upload *)

(** The callback of [setTimeout(..., 500)] in [onSuccess]. *)
Definition reset_after_delay : Handler :=
  setIsUploading false ;; setUploadProgress 0.

(** [onSuccess] passed to [mutate]. *)
Definition handleFileSelect_onSuccess : Handler :=
  setUploadProgress 100 ;;
  toast_success "File uploaded successfully!" None ;;
  setTimeout 500.

(** [onError] passed to [mutate]. *)
Definition handleFileSelect_onError (error : Thrown) : Handler :=
  toast_error "Failed to upload file" None ;;
  console_error "Upload error:" error ;;
  setIsUploading false ;;
  setUploadProgress 0.

(** The mutation of [useAddFile] settles: the callback of the hook runs
    first, the state of the mutation is published, then the callback given
    to [mutate] runs if the component is still mounted. *)
Definition addFile_settle (o : Settled FileMetadata) : Handler :=
  match o with
  | Fulfilled d =>
      useAddFile_onSuccess ;;
      with_addFileMutation (MSuccess d) ;;
      when_mounted handleFileSelect_onSuccess
  | RejectedWith t =>
      with_addFileMutation (MError t) ;;
      when_mounted (handleFileSelect_onError t)
  end.

(** [addFileMutation.mutate({ name, size }, { onSuccess, onError })]: the
    [mutationFn] runs up to its [await]. *)
Definition addFileMutation_mutate (name : string) (size : Z) : Handler := fun s =>
  match useAddFile_mutationFn (actor s) name size with
  | Awaiting c k => with_addFileMutation (MPending k) (log (Call c) s)
  | Resolved d => with_addFileMutation (MSettling (Fulfilled d)) s
  | ThrownBeforeCall t => with_addFileMutation (MSettling (RejectedWith t)) s
  end.

Definition handleFileSelect (file : option File) : Handler :=
  match file with
  | Some f =>
      setIsUploading true ;;
      setUploadProgress 0 ;;
      toast_success ("Selected: " ++ file_name f)
        (Some ("Size: " ++ toFixed2_kb (file_size f) ++ " KB")) ;;
      addFileMutation_mutate (file_name f) (BigInt (file_size f))
  | None => skip
  end ;;
  log ResetInputValue.

(** [handleUploadClick]: the click on the hidden input opens the file
    chooser. *)
Definition handleUploadClick : Handler :=
  log OpenFileChooser ;; with_chooserOpen true.

(** [disabled={isUploading}] of the upload button. *)
Definition upload_button_disabled (s : State) : bool := isUploading s.

(** ** [FileStorageApp]: the progress animation *)

(** A JavaScript number is an IEEE 754 binary64 value. The state holds a
    finite number as the rational it is equal to; sums and quotients are
    computed on [spec_float], the specification of binary64 arithmetic of
    the Standard Library (53 bits of precision, rounding to nearest, ties
    to even), and read back as rationals. *)
Definition prec : Z := 53.
Definition emax : Z := 1024.

Definition double_of_Z (z : Z) : spec_float := binary_normalize prec emax z 0 false.

(** The double a rational stands for. A value of a double is an integer
    below 2^53 over a power of two: both are doubles and their quotient is
    exact. *)
Definition double_of_Q (x : Q) : spec_float :=
  SFdiv prec emax (double_of_Z (Qnum x)) (double_of_Z (Zpos (Qden x))).

(** The value of a finite double, in lowest terms. The numbers of the
    component are finite: no infinity and no NaN arises from sums below
    200 and from 95 / 50. *)
Definition Q_of_double (f : spec_float) : Q :=
  match f with
  | S754_finite s m e =>
      let n := if s then Zneg m else Zpos m in
      match e with
      | Zneg p => Qred (n # 2 ^ p)
      | _ => inject_Z (n * 2 ^ e)
      end
  | _ => 0%Q
  end.

(** [x + y] and [x / y] on numbers. *)
Definition js_add (x y : Q) : Q :=
  Q_of_double (SFadd prec emax (double_of_Q x) (double_of_Q y)).

Definition js_div (x y : Q) : Q :=
  Q_of_double (SFdiv prec emax (double_of_Q x) (double_of_Q y)).

Definition duration : Q := 1500.
Definition intervalTime : Q := 30.
Definition steps : Q := js_div duration intervalTime.
Definition increment : Q := js_div 95 steps.

(** The callback of [setInterval]; [cp] is the closure variable
    [currentProgress] before the call. *)
Definition interval_callback (cp : Q) : Handler :=
  let currentProgress := js_add cp increment in
  if Qle_bool 95 currentProgress
  then setUploadProgress 95 ;; clearInterval
  else setUploadProgress currentProgress ;; with_interval (Some currentProgress).

(** The dependencies of the effect: [[isUploading, addFileMutation.isPending]]. *)
Definition effect_deps (s : State) : bool * bool :=
  (isUploading s, isPending (addFileMutation s)).

Definition effect_condition (s : State) : bool :=
  isUploading s && isPending (addFileMutation s).

(** The body of the effect. *)
Definition progress_effect : Handler := fun s =>
  if effect_condition s
  then with_interval (Some 0%Q) (log (SetInterval 30) s)
  else s.

(** The cleanup of the run of the effect made in state [old]: that run
    returned [() => clearInterval(interval)] exactly when its condition
    held. *)
Definition progress_cleanup (old : State) : Handler :=
  if effect_condition old then clearInterval else skip.

(** React commits the render that follows a task: on unmount the cleanup
    runs; when a dependency changed the cleanup runs and then the effect. *)
Definition commit (old : State) : Handler := fun new =>
  if negb (mounted new) then
    if mounted old then progress_cleanup old new else new
  else if Bool.eqb (isUploading old) (isUploading new)
          && Bool.eqb (isPending (addFileMutation old)) (isPending (addFileMutation new))
  then new
  else progress_effect (progress_cleanup old new).

(** ** [FileStorageApp]: download *)

(** The body of [handleDownload] after the [await]. *)
Definition handleDownload_then (result : FileContent) : Handler :=
  log (SaveAs (content_name result) (content result)) ;;
  toast_success "Download started!"
    (Some ("Downloading " ++ content_name result)).

(** The [catch] clause of [handleDownload]. *)
Definition handleDownload_catch (error : Thrown) : Handler :=
  toast_error "Failed to download file"
    (Some match error with
          | JsError message => message
          | NonError _ => "Unknown error"
          end) ;;
  console_error "Download error:" error.

Definition getFileContent_settle (o : Settled FileContent) : Handler :=
  match o with
  | Fulfilled result =>
      with_getFileContentMutation (MSuccess result) ;; handleDownload_then result
  | RejectedWith t =>
      with_getFileContentMutation (MError t) ;; handleDownload_catch t
  end.

(** [handleDownload(fileId, fileName)] up to the [await]; [fileName], the
    name of the cached record, is not used by the body. *)
Definition handleDownload (fileId : Z) (fileName : string) : Handler := fun s =>
  match useGetFileContent_mutationFn (actor s) fileId with
  | Awaiting c k => with_getFileContentMutation (MPending k) (log (Call c) s)
  | Resolved r => with_getFileContentMutation (MSettling (Fulfilled r)) s
  | ThrownBeforeCall t => with_getFileContentMutation (MSettling (RejectedWith t)) s
  end.

(** [disabled={getFileContentMutation.isPending}] of the download buttons. *)
Definition download_button_disabled (s : State) : bool :=
  isPending (getFileContentMutation s).

(** ** [FileStorageApp]: deletion *)

Definition handleDeleteClick (fileId : Z) : Handler :=
  setFileToDelete (Some fileId).

Definition handleConfirmDelete : Handler := fun s =>
  match fileToDelete s with
  | Some _ =>
      (toast_error "Delete functionality not yet implemented in backend" None ;;
       setFileToDelete None) s
  | None => s
  end.

Definition handleCancelDelete : Handler :=
  setFileToDelete None.

(** The states of the deletion intent handler, read off [fileToDelete]. *)
Inductive DeletionState : Type :=
| Idle
| PendingConfirmation (fileId : Z).

Definition deletion_state (s : State) : DeletionState :=
  match fileToDelete s with
  | None => Idle
  | Some i => PendingConfirmation i
  end.

(** ** Events and steps *)

Inductive Event : Type :=
| ActorChanged (a : option Actor) (fetching : bool)
| FilesSettled (r : Settled (list FileMetadata))
| ClickUpload
| FileChosen (file : option File)
| AddFileSettled (r : Settled FileMetadata)
| IntervalTick
| TimeoutFired
| ClickDownload (fileId : Z) (fileName : string)
| GetFileContentSettled (r : Settled (option (string * list Byte.byte)))
| ClickDelete (fileId : Z)
| ClickConfirm
| ClickCancel
| Unmount
| DialogOpenChange (open : bool).

(** What an event runs. An event that cannot occur in the state (a click on
    a disabled or absent control, a tick of a cleared interval, a
    settlement with no outstanding call) runs nothing. *)
Definition dispatch (e : Event) : Handler := fun s =>
  match e with
  | ActorChanged a f => actor_changed a f s
  | FilesSettled r => files_settled r s
  | ClickUpload =>
      if mounted s && negb (upload_button_disabled s) then handleUploadClick s else s
  | FileChosen file =>
      if mounted s && chooserOpen s
      then handleFileSelect file (with_chooserOpen false s) else s
  | AddFileSettled r =>
      match addFileMutation s with
      | MPending k => with_addFileMutation (MSettling (k r)) s
      | _ => s
      end
  | IntervalTick =>
      match interval s with
      | Some cp => interval_callback cp s
      | None => s
      end
  | TimeoutFired =>
      match timeouts s with
      | _ :: rest => reset_after_delay (with_timeouts rest s)
      | [] => s
      end
  | ClickDownload fileId fileName =>
      if mounted s && negb (download_button_disabled s)
      then handleDownload fileId fileName s else s
  | GetFileContentSettled r =>
      match getFileContentMutation s with
      | MPending k => with_getFileContentMutation (MSettling (k r)) s
      | _ => s
      end
  | ClickDelete fileId =>
      if mounted s then handleDeleteClick fileId s else s
  | ClickConfirm =>
      if mounted s then handleConfirmDelete s else s
  | ClickCancel =>
      if mounted s then handleCancelDelete s else s
  | Unmount => with_mounted false s
  | DialogOpenChange open =>
      if mounted s && negb open then handleCancelDelete s else s
  end.

(** The microtasks queued by a task run when its synchronous code has
    returned: the reactions to the settled promises of the two mutations. *)
Definition addFile_microtask : Handler := fun s =>
  match addFileMutation s with
  | MSettling o => addFile_settle o s
  | _ => s
  end.

Definition getFileContent_microtask : Handler := fun s =>
  match getFileContentMutation s with
  | MSettling o => getFileContent_settle o s
  | _ => s
  end.

Definition microtasks : Handler :=
  addFile_microtask ;; getFileContent_microtask.

Definition step (e : Event) : Handler := fun s =>
  commit s (microtasks (dispatch e s)).

Fixpoint run (es : list Event) (s : State) : State :=
  match es with
  | [] => s
  | e :: es' => run es' (step e s)
  end.

Definition reachable (s : State) : Prop := exists es, s = run es init.

(** A task alone, before React has rendered. *)
Definition task (e : Event) : Handler := fun s => microtasks (dispatch e s).

(** React renders an update made outside its own event handlers (in the
    reaction to a promise, in a timer) in a later task of its scheduler; a
    timer that is due runs before that. [batch es] is the tasks [es] run one
    after the other from a rendered state, followed by the commit of the one
    render they caused; [step e] is [batch [e]]. *)
Definition batch (es : list Event) : Handler := fun s =>
  commit s (fold_left (fun x e => task e x) es s).

(** ** [FileStorageApp]: the file list *)

(** [s.split(sep)] for a one-character separator: never empty. *)
Fixpoint split (sep : ascii) (s : string) : list string :=
  match s with
  | EmptyString => [EmptyString]
  | String c rest =>
      if Ascii.eqb c sep then EmptyString :: split sep rest
      else match split sep rest with
           | segment :: segments => String c segment :: segments
           | [] => [String c EmptyString]
           end
  end.

(** [array.pop()]: the last element, or [undefined]. *)
Definition pop (l : list string) : option string :=
  match rev l with
  | x :: _ => Some x
  | [] => None
  end.

(** [toLowerCase] on the letters A to Z. No other character lowercases to
    a letter of the extensions tested below, so leaving the others alone
    does not change the icon. *)
Definition lower_ascii (c : ascii) : ascii :=
  let n := N_of_ascii c in
  if (65 <=? n)%N && (n <=? 90)%N then ascii_of_N (n + 32) else c.

Fixpoint toLowerCase (s : string) : string :=
  match s with
  | EmptyString => EmptyString
  | String c rest => String (lower_ascii c) (toLowerCase rest)
  end.

(** The icons of lucide-react the list uses. *)
Module Lucide.
Variant Icon : Type := FileText | Image | File.
End Lucide.

(** [getFileIcon]. *)
Definition getFileIcon (fileName : string) : Lucide.Icon :=
  let ext := option_map toLowerCase (pop (split "." fileName)) in
  if match ext with Some e => String.eqb e "pdf" | None => false end
  then Lucide.FileText
  else if existsb (String.eqb match ext with Some e => e | None => EmptyString end)
            ["png"; "jpg"; "jpeg"; "gif"; "svg"]
  then Lucide.Image
  else Lucide.File.

(** [x.toFixed(2)] for a number given exactly: the hundredths nearest to
    the magnitude of [x], the larger on a tie; then the sign, the integer
    part, a point and two digits. *)
Definition hundredths (x : Q) : N :=
  Z.to_N (Qfloor (Qabs x * 100 + (1 # 2))).

Definition fixed2 (h : N) : string :=
  NilZero.string_of_uint (N.to_uint (h / 100)%N) ++ "." ++ two_digits (h mod 100)%N.

Definition toFixed2 (x : Q) : string :=
  (if Qle_bool 0 x then EmptyString else "-") ++ fixed2 (hundredths x).

(** [formatFileSize]. [Number(bytes)] is exact below 2^53, and so are the
    two divisions by 1024. *)
Definition formatFileSize (bytes : Z) : string :=
  let kb := (inject_Z bytes / 1024)%Q in
  if negb (Qle_bool 1024 kb) then toFixed2 kb ++ " KB"
  else
    let mb := (kb / 1024)%Q in
    toFixed2 mb ++ " MB".

(** ** [FileStorageApp]: the share link *)

(** [String(n)] and [n.toString()] of a [bigint]: its decimal digits, after
    a minus sign when it is negative. *)
Definition bigint_toString (z : Z) : string := NilZero.string_of_int (Z.to_int z).

(** The link [handleCopyLink] builds: [`https://fileshare.example.com/${fileId}`]. *)
Definition share_link (fileId : Z) : string :=
  "https://fileshare.example.com/" ++ bigint_toString fileId.

(** The link the popover of a file shows:
    [https://fileshare.example.com/{file.id.toString()}]. *)
Definition shown_link (file : FileMetadata) : string :=
  "https://fileshare.example.com/" ++ bigint_toString (id file).

(** The copy indicator: the part of the component state [handleCopyLink]
    uses, with the clipboard and the timers of the browser. *)
Module CopyLink.

Inductive Effect : Type :=
| WriteText (text : string)
| SetCopiedIndex (v : option nat)
| ToastSuccess (title : string)
| SetTimeout (ms : Z).

Record State : Type := mkState {
  mounted : bool;
  copiedIndex : option nat;
  clipboard : option string;
  timers : list Z;
  trace : list Effect
}.

Definition init : State := mkState true None None [] [].

Definition log (e : Effect) (s : State) : State :=
  mkState (mounted s) (copiedIndex s) (clipboard s) (timers s) (trace s ++ [e]).

(** [navigator.clipboard.writeText(link)]: the promise it returns is
    dropped; [granted] tells whether the browser performs the write. *)
Definition writeText (text : string) (granted : bool) (s : State) : State :=
  let s1 := log (WriteText text) s in
  if granted
  then mkState (mounted s1) (copiedIndex s1) (Some text) (timers s1) (trace s1)
  else s1.

Definition setCopiedIndex (v : option nat) (s : State) : State :=
  let s1 := log (SetCopiedIndex v) s in
  if mounted s1
  then mkState (mounted s1) v (clipboard s1) (timers s1) (trace s1)
  else s1.

Definition setTimeout (ms : Z) (s : State) : State :=
  let s1 := log (SetTimeout ms) s in
  mkState (mounted s1) (copiedIndex s1) (clipboard s1) (timers s1 ++ [ms]) (trace s1).

Definition handleCopyLink (fileId : Z) (index : nat) (granted : bool) (s : State) : State :=
  let link := share_link fileId in
  let s1 := writeText link granted s in
  let s2 := setCopiedIndex (Some index) s1 in
  let s3 := log (ToastSuccess "Link copied to clipboard!") s2 in
  setTimeout 2000 s3.

Inductive Event : Type :=
| Click (fileId : Z) (index : nat) (granted : bool)
| TimerFired
| Unmount.

Definition step (e : Event) (s : State) : State :=
  match e with
  | Click fileId index granted =>
      if mounted s then handleCopyLink fileId index granted s else s
  | TimerFired =>
      match timers s with
      | _ :: rest =>
          setCopiedIndex None
            (mkState (mounted s) (copiedIndex s) (clipboard s) rest (trace s))
      | [] => s
      end
  | Unmount => mkState false (copiedIndex s) (clipboard s) (timers s) (trace s)
  end.

Fixpoint run (es : list Event) (s : State) : State :=
  match es with
  | [] => s
  | e :: es' => run es' (step e s)
  end.

Definition reachable (s : State) : Prop := exists es, s = run es init.

End CopyLink.

(** ** [FileStorageApp]: the progress label *)

(** [Math.round]: the nearest integer, the larger on a tie. *)
Definition Math_round (x : Q) : Z := Qfloor (x + (1 # 2)).

(** The percentage next to the progress bar:
    [{Math.round(uploadProgress)}%]. *)
Definition progress_label (s : State) : Z := Math_round (uploadProgress s).

(** The progress bar and its label are rendered when [isUploading]. *)
Definition progress_bar_shown (s : State) : bool := isUploading s.

(** ** Definitions used by the statements *)

Definition settling {R A : Type} (m : Mutation R A) : bool :=
  match m with
  | MSettling _ => true
  | _ => false
  end.

(** What holds between two tasks of the event loop. *)
Record Inv (s : State) : Prop := mkInv {
  inv_quiet_add : settling (addFileMutation s) = false;
  inv_quiet_get : settling (getFileContentMutation s) = false;
  inv_add_k : forall k, addFileMutation s = MPending k -> k = (fun r => r);
  inv_get_k : forall k, getFileContentMutation s = MPending k ->
                        k = useGetFileContent_after_await;
  inv_timeouts : timeouts s = [] \/
                 (timeouts s = [500] /\ isUploading s = true /\
                  isSuccess (addFileMutation s) = true);
  inv_chooser : chooserOpen s = true -> isUploading s = false;
  inv_pending : isPending (addFileMutation s) = true -> isUploading s = true;
  inv_interval : interval s <> None ->
                 mounted s = true /\ effect_condition s = true;
  inv_progress : (uploadProgress s == 100)%Q -> isSuccess (addFileMutation s) = true
}.

(** The part of the state the invariant reads. *)
Definition core (s : State) :=
  (mounted s, uploadProgress s, isUploading s, addFileMutation s,
   getFileContentMutation s, chooserOpen s, interval s, timeouts s).

(** The calls made by the task that handles [e] in state [s]. *)
Definition emitted (e : Event) (s : State) : list Effect :=
  skipn (List.length (trace s)) (trace (step e s)).

(** The refetch that follows an invalidation of the [['files']] query in
    state [s]. *)
Definition refetch (s : State) : list Effect :=
  if mounted s && useGetFiles_enabled (actor s) (actorFetching s)
  then [Call CallGetFiles] else [].

(** Kinds of calls looked for in what a task emits. *)
Definition is_invalidate (e : Effect) : bool :=
  match e with
  | InvalidateQueries _ => true
  | _ => false
  end.

Definition is_addFile_call (e : Effect) : bool :=
  match e with
  | Call (CallAddFile _ _) => true
  | _ => false
  end.

Definition sets_progress_100 (e : Effect) : bool :=
  match e with
  | SetUploadProgress p => Qeq_bool p 100
  | _ => false
  end.

(** [n] ticks of the interval in a row. *)
Definition ticks (n : nat) (s : State) : State := Nat.iter n (step IntervalTick) s.

(** Sample states: an upload of report.pdf in flight, an upload of x.bin in
    flight, a connected client listing one file, an open file chooser. *)
Definition uploading_state : State :=
  run [ActorChanged (Some backendActor) false; FilesSettled (Fulfilled []);
       ClickUpload; FileChosen (Some (mkFile "report.pdf" 204800))] init.

Definition pending_x_bin : State :=
  run [ActorChanged (Some backendActor) false; FilesSettled (Fulfilled []);
       ClickUpload; FileChosen (Some (mkFile "x.bin" 10))] init.

(** The closure variable [currentProgress] after [n] calls of the interval
    callback. *)
Definition ramp (n : nat) : Q := Nat.iter n (fun cp => js_add cp increment) 0%Q.

(** The text of a thrown value. *)
Definition cause_text (t : Thrown) : string :=
  match t with
  | JsError message => message
  | NonError shown => shown
  end.

(** A failure notification whose description is the cause. *)
Definition toast_carries (t : Thrown) (e : Effect) : bool :=
  match e with
  | ToastError _ (Some description) => String.eqb description (cause_text t)
  | _ => false
  end.

(** The preconditions the specification states for [submit]. *)
Definition submit_precondition (name : string) (size : Z) : bool :=
  negb (String.eqb name EmptyString) && (0 <=? size).

Definition connected_state : State :=
  run [ActorChanged (Some backendActor) false;
       FilesSettled (Fulfilled [mkFileMetadata 42 "old-name.txt" 3])] init.

Definition is_getFiles_call (e : Effect) : bool :=
  match e with
  | Call CallGetFiles => true
  | _ => false
  end.

(** The event as it occurs while [useActor] has no actor to return. *)
Definition without_actor (e : Event) : Event :=
  match e with
  | ActorChanged _ fetching => ActorChanged None fetching
  | _ => e
  end.

Definition chooser_state : State :=
  run [ActorChanged (Some backendActor) false; ClickUpload] init.

(** What holds as long as [useActor] has returned no actor. *)
Record Unbound (s : State) : Prop := mkUnbound {
  unbound_actor : actor s = None;
  unbound_data : q_data (filesQuery s) = None;
  unbound_fetch : q_fetch (filesQuery s) = None;
  unbound_calls : existsb is_getFiles_call (trace s) = false
}.

Definition has_dot (s : string) : bool :=
  existsb (Ascii.eqb ".") (list_ascii_of_string s).

(** Printing hundredths and reading them back. *)
Definition digit_value (c : ascii) : N := (N_of_ascii c - 48)%N.

Definition read_two_digits (s : string) : N :=
  match s with
  | String a (String b EmptyString) => (digit_value a * 10 + digit_value b)%N
  | _ => 0%N
  end.

(** While the component is mounted, a check mark has a timer pending. *)
Definition indicator_has_timer (s : CopyLink.State) : Prop :=
  CopyLink.mounted s = true -> CopyLink.copiedIndex s <> None -> CopyLink.timers s <> [].

Definition is_getFileContent_call (e : Effect) : bool :=
  match e with
  | Call (CallGetFileContent _) => true
  | _ => false
  end.

Definition is_save (e : Effect) : bool :=
  match e with
  | SaveAs _ _ => true
  | _ => false
  end.

(** The values the progress and the closure variable of the interval
    take: the closure variable is one of the first fifty sums. *)
Record ProgressRange (s : State) : Prop := mkProgressRange {
  range_progress : (0 <= uploadProgress s <= 95)%Q \/ (uploadProgress s == 100)%Q;
  range_interval : forall cp, interval s = Some cp -> exists n, (n < 50)%nat /\ cp = ramp n
}.

(** The events of a download and the events of an upload. *)
Definition is_download_event (e : Event) : bool :=
  match e with
  | ClickDownload _ _ | GetFileContentSettled _ => true
  | _ => false
  end.

Definition is_upload_event (e : Event) : bool :=
  match e with
  | ClickUpload | FileChosen _ | AddFileSettled _ | IntervalTick | TimeoutFired => true
  | _ => false
  end.

(** What an upload reads and writes. *)
Definition upload_view (s : State) :=
  (isUploading s, uploadProgress s, interval s, timeouts s, addFileMutation s,
   chooserOpen s, filesQuery s).

(** A new upload has started. *)
Definition upload_started (s : State) : Prop :=
  isPending (addFileMutation s) = true /\ isUploading s = true /\
  uploadProgress s = 0%Q /\ interval s = Some 0%Q.

Definition is_call (e : Effect) : bool :=
  match e with
  | Call _ => true
  | _ => false
  end.

(** The events of the confirmation dialog. *)
Definition is_deletion_event (e : Event) : bool :=
  match e with
  | ClickDelete _ | ClickConfirm | ClickCancel | DialogOpenChange _ => true
  | _ => false
  end.

Definition is_delete_toast (e : Effect) : bool :=
  match e with
  | ToastError title _ =>
      String.eqb title "Delete functionality not yet implemented in backend"
  | _ => false
  end.

Definition is_setInterval (e : Effect) : bool :=
  match e with
  | SetInterval _ => true
  | _ => false
  end.

Definition is_clearInterval (e : Effect) : bool :=
  match e with
  | ClearInterval => true
  | _ => false
  end.

(** The calls made by the tasks [es], run from the rendered state [s], and
    by the commit that follows them. *)
Definition emitted_by (es : list Event) (s : State) : list Effect :=
  skipn (List.length (trace s)) (trace (batch es s)).

(** What the progress is set to when an upload settles. *)
Definition settled_progress (r : Settled FileMetadata) : Q :=
  match r with
  | Fulfilled _ => 100
  | RejectedWith _ => 0
  end.

(** What a tick sets the progress to when the closure variable is [cp]. *)
Definition tick_progress (cp : Q) : Q :=
  if Qle_bool 95 (js_add cp increment) then 95 else js_add cp increment.

(** ** Invariants of the reachable states *)

Lemma Inv_init : Inv init.
Proof.
  constructor; simpl; try reflexivity; try discriminate; auto.
Qed.

Lemma Inv_core (s s' : State) : core s' = core s -> Inv s -> Inv s'.
Proof.
  destruct s, s'; unfold core; cbn.
  intros [= -> -> -> -> -> -> -> ->] [H1 H2 H3 H4 H5 H6 H7 H8 H9].
  constructor; assumption.
Qed.

Lemma addFile_microtask_quiet (s : State) :
  settling (addFileMutation s) = false -> addFile_microtask s = s.
Proof.
  unfold addFile_microtask. destruct (addFileMutation s); try reflexivity; discriminate.
Qed.

Lemma getFileContent_microtask_quiet (s : State) :
  settling (getFileContentMutation s) = false -> getFileContent_microtask s = s.
Proof.
  unfold getFileContent_microtask.
  destruct (getFileContentMutation s); try reflexivity; discriminate.
Qed.

Lemma microtasks_quiet (s : State) :
  settling (addFileMutation s) = false ->
  settling (getFileContentMutation s) = false ->
  microtasks s = s.
Proof.
  intros Ha Hg. unfold microtasks, seq_handler.
  rewrite (addFile_microtask_quiet s Ha). apply getFileContent_microtask_quiet, Hg.
Qed.

Lemma commit_unchanged (old new : State) :
  mounted new = mounted old ->
  isUploading new = isUploading old ->
  isPending (addFileMutation new) = isPending (addFileMutation old) ->
  commit old new = new.
Proof.
  intros Hm Hu Hp. unfold commit. rewrite Hm, Hu, Hp.
  destruct (mounted old); cbn; [|reflexivity].
  now rewrite !Bool.eqb_reflx.
Qed.

(** An event whose handler leaves the core alone has no microtask and no
    effect to run. *)
Lemma step_frame (e : Event) (s : State) :
  Inv s -> core (dispatch e s) = core s -> step e s = dispatch e s.
Proof.
  intros HI Hc. unfold core in Hc. injection Hc as Hm _ Hu Ha Hg _ _ _.
  unfold step. rewrite microtasks_quiet.
  - apply commit_unchanged; congruence.
  - rewrite Ha. apply HI.
  - rewrite Hg. apply HI.
Qed.

Lemma tick_not_100 (q : Q) : Qle_bool 95 q = false -> ~ (q == 100)%Q.
Proof.
  intros H E. assert (Hle : (95 <= q)%Q) by (rewrite E; unfold Qle; simpl; lia).
  apply Qle_bool_iff in Hle. congruence.
Qed.

Declare Reduction norm_red :=
  cbv -[Qle_bool increment js_add Qeq Qplus app String.append toFixed2_kb BigInt].
Ltac norm := cbv -[Qle_bool increment js_add Qeq Qplus app String.append toFixed2_kb BigInt].

Lemma core_ActorChanged x f s : core (dispatch (ActorChanged x f) s) = core s.
Proof. destruct s as [m ? ? ? a af ? ? ? ? ? ? ?]; destruct x, f, a, af, m; reflexivity. Qed.

Lemma core_FilesSettled r s : core (dispatch (FilesSettled r) s) = core s.
Proof.
  destruct s as [m ? ? ? a af [qd qi [k|]] ? ? ? ? ? ?]; [|reflexivity].
  norm. destruct (k r); reflexivity.
Qed.

Lemma core_deletion e s :
  e = ClickConfirm \/ e = ClickCancel \/ (exists i, e = ClickDelete i) \/
  (exists o, e = DialogOpenChange o) ->
  core (dispatch e s) = core s.
Proof.
  intros [->|[->|[[i ->]|[[] ->]]]]; destruct s as [[] [] ? ? ? ? ? ? ? ? ? ? ?];
    reflexivity.
Qed.

Ltac inv_field :=
  match goal with
  | |- _ = _ => reflexivity || assumption || discriminate
  | |- _ \/ _ => (left; reflexivity) || (right; repeat split; reflexivity || assumption)
  | |- _ /\ _ => split; inv_field
  | H : ?x <> ?x |- _ => exfalso; apply H; reflexivity
  | H : forall k, _ = MPending k -> _ |- _ = _ => apply H; assumption
  | H : MPending _ = MPending _ |- _ => injection H as <-; reflexivity
  | H : (_ == 100)%Q |- _ =>
      exfalso; first [ revert H; apply tick_not_100; assumption
                     | revert H; unfold Qeq; simpl; lia ]
  | H : (?x == 100)%Q, H' : (?x == 100)%Q -> _ |- _ => apply H'; exact H
  end.

Ltac solve_inv :=
  norm; constructor;
  cbn -[Qle_bool increment js_add Qeq Qplus app String.append toFixed2_kb BigInt]; intros;
  try discriminate; inv_field.

(** The upload part of the states allowed by the invariant, by cases. *)
Ltac inv_cases s H :=
  destruct H as [Hqa Hqg Hak Hgk Hto Hch Hpe Hiv Hpr];
  destruct s as [m ftd up iu a af fq am gm co iv ts tr];
  cbn in Hqa, Hqg, Hak, Hgk, Hto, Hch, Hpe, Hiv, Hpr;
  destruct am; try discriminate Hqa; clear Hqa;
  (destruct iu; try (specialize (Hpe eq_refl); discriminate Hpe); clear Hpe);
  (destruct Hto as [->|(-> & Hto & Hts)];
     [|try discriminate Hto; try discriminate Hts]);
  (destruct co; try (specialize (Hch eq_refl); discriminate Hch); clear Hch);
  (destruct iv as [cp|];
     [ destruct Hiv as [Hiv Hic]; [discriminate|]; subst m; try discriminate Hic; clear Hic
     | clear Hiv; destruct m ]).

(** Run the handler and the microtask of [addFile]; the one of
    [getFileContent] has nothing to do. *)
Ltac run_handler :=
  unfold step, microtasks, seq_handler;
  match goal with
  | |- context [getFileContent_microtask ?x] =>
      let x' := eval norm_red in x in
      change x with x'
  end.

Ltac skip_get_microtask :=
  run_handler; rewrite getFileContent_microtask_quiet by assumption.

Lemma step_Inv_ClickUpload s : Inv s -> Inv (step ClickUpload s).
Proof.
  intros H. inv_cases s H.
  all: skip_get_microtask; solve_inv.
Qed.

Lemma step_Inv_FileChosen f s : Inv s -> Inv (step (FileChosen f) s).
Proof.
  intros H. inv_cases s H.
  all: destruct f, a; skip_get_microtask; solve_inv.
Qed.

Lemma step_Inv_AddFileSettled r s : Inv s -> Inv (step (AddFileSettled r) s).
Proof.
  intros H. inv_cases s H.
  all: try rewrite (Hak _ eq_refl).
  all: destruct r, a, af; skip_get_microtask; solve_inv.
Qed.

Lemma step_Inv_IntervalTick s : Inv s -> Inv (step IntervalTick s).
Proof.
  intros H. inv_cases s H.
  all: run_handler.
  all: try (destruct (Qle_bool 95 (js_add cp increment)) eqn:Hle; cbv beta iota).
  all: rewrite getFileContent_microtask_quiet by assumption; solve_inv.
Qed.

Lemma step_Inv_TimeoutFired s : Inv s -> Inv (step TimeoutFired s).
Proof.
  intros H. inv_cases s H.
  all: skip_get_microtask; solve_inv.
Qed.

Lemma step_Inv_Unmount s : Inv s -> Inv (step Unmount s).
Proof.
  intros H. inv_cases s H.
  all: skip_get_microtask; solve_inv.
Qed.

Lemma step_Inv_ClickDownload i n s : Inv s -> Inv (step (ClickDownload i n) s).
Proof.
  intros H. inv_cases s H.
  all: destruct gm; try discriminate Hqg; destruct a; solve_inv.
Qed.

Lemma step_Inv_GetFileContentSettled r s :
  Inv s -> Inv (step (GetFileContentSettled r) s).
Proof.
  intros H. inv_cases s H.
  all: destruct gm; try discriminate Hqg; try rewrite (Hgk _ eq_refl).
  all: destruct r as [[[n c]|]|t]; solve_inv.
Qed.

Lemma step_Inv (e : Event) (s : State) : Inv s -> Inv (step e s).
Proof.
  intros H.
  destruct e.
  - rewrite step_frame by auto using core_ActorChanged.
    apply (Inv_core s); auto using core_ActorChanged.
  - rewrite step_frame by auto using core_FilesSettled.
    apply (Inv_core s); auto using core_FilesSettled.
  - now apply step_Inv_ClickUpload.
  - now apply step_Inv_FileChosen.
  - now apply step_Inv_AddFileSettled.
  - now apply step_Inv_IntervalTick.
  - now apply step_Inv_TimeoutFired.
  - now apply step_Inv_ClickDownload.
  - now apply step_Inv_GetFileContentSettled.
  - rewrite step_frame by (auto; apply core_deletion; eauto).
    apply (Inv_core s); auto; apply core_deletion; eauto.
  - rewrite step_frame by (auto; apply core_deletion; eauto).
    apply (Inv_core s); auto; apply core_deletion; eauto.
  - rewrite step_frame by (auto; apply core_deletion; eauto).
    apply (Inv_core s); auto; apply core_deletion; eauto.
  - now apply step_Inv_Unmount.
  - rewrite step_frame by (auto; apply core_deletion; eauto 6).
    apply (Inv_core s); auto; apply core_deletion; eauto 6.
Qed.

Lemma run_Inv (es : list Event) (s : State) : Inv s -> Inv (run es s).
Proof.
  revert s. induction es as [|e es IH]; intros s H; cbn; auto using step_Inv.
Qed.

Lemma reachable_Inv (s : State) : reachable s -> Inv s.
Proof.
  intros [es ->]. apply run_Inv, Inv_init.
Qed.

(** ** What one task emits *)

Lemma skipn_length_app {A : Type} (l l' : list A) :
  skipn (List.length l) (l ++ l') = l'.
Proof. induction l; cbn; auto. Qed.

Lemma skipn_length_nil {A : Type} (l : list A) :
  skipn (List.length l) l = [].
Proof. induction l; cbn; auto. Qed.

Ltac norm_tr :=
  cbv -[Qle_bool increment js_add Qeq Qeq_bool Qplus app String.append toFixed2_kb BigInt skipn
        List.length existsb];
  repeat rewrite <- app_assoc; cbn [app];
  rewrite ?skipn_length_app, ?skipn_length_nil.

(** Run the handler of the event before its microtasks and the commit. *)
Ltac eval_dispatch :=
  unfold step;
  match goal with
  | |- context [microtasks ?x] =>
      let x' := eval norm_red in x in
      change x with x'
  end.

(** Split the state into its fields and the invariant into its parts. *)
Ltac fields s H :=
  destruct H as [Hqa Hqg Hak Hgk Hto Hch Hpe Hiv Hpr];
  destruct s as [m ftd up iu a af fq am gm co iv ts tr];
  cbn in Hqa, Hqg, Hak, Hgk, Hto, Hch, Hpe, Hiv, Hpr.

Lemma upload_success_step (s : State) (d : FileMetadata) k :
  Inv s -> mounted s = true -> addFileMutation s = MPending k ->
  let s1 := step (AddFileSettled (Fulfilled d)) s in
  emitted (AddFileSettled (Fulfilled d)) s =
    ([InvalidateQueries filesKey] ++ refetch s ++
     [SetUploadProgress 100; ToastSuccess "File uploaded successfully!" None;
      SetTimeout 500; ClearInterval])%list /\
  uploadProgress s1 = 100%Q /\ isUploading s1 = true /\ timeouts s1 = [500] /\
  interval s1 = None /\ addFileMutation s1 = MSuccess d /\ mounted s1 = true.
Proof.
  intros HI Hm Ha. fields s HI. cbn in Hm, Ha. subst m am.
  rewrite (Hak _ eq_refl). specialize (Hpe eq_refl). subst iu.
  destruct Hto as [->|(_ & _ & Hs)]; [|discriminate Hs].
  destruct gm; try discriminate Hqg; destruct a, af; norm_tr; repeat split; reflexivity.
Qed.

Lemma run_app (es es' : list Event) (s : State) :
  run (es ++ es') s = run es' (run es s).
Proof. revert s. induction es; cbn; auto. Qed.

Lemma reachable_init : reachable init.
Proof. now exists []. Qed.

Lemma reachable_step (e : Event) (s : State) : reachable s -> reachable (step e s).
Proof.
  intros [es ->]. exists (es ++ [e])%list. now rewrite run_app.
Qed.

Lemma reachable_run (es : list Event) (s : State) : reachable s -> reachable (run es s).
Proof.
  intros [es0 ->]. exists (es0 ++ es)%list. now rewrite run_app.
Qed.

Lemma reachable_ticks (n : nat) (s : State) : reachable s -> reachable (ticks n s).
Proof.
  intros H. induction n; cbn; auto using reachable_step.
Qed.

Lemma Qeq_bool_tick (q : Q) :
  Qle_bool 95 q = false -> Qeq_bool q 100 = false.
Proof.
  intros H. destruct (Qeq_bool q 100) eqn:E; [|reflexivity].
  apply Qeq_bool_iff in E. now apply tick_not_100 in H.
Qed.

Ltac effects_done :=
  cbn [existsb is_invalidate is_addFile_call sets_progress_100 orb];
  repeat match goal with
    | |- context [Qeq_bool ?p 100] =>
        first [ rewrite (Qeq_bool_tick p) by assumption
              | let b := eval vm_compute in (Qeq_bool p 100) in
                change (Qeq_bool p 100) with b ]
    end;
  cbn [orb];
  split;
  [ intros [X|X]; try discriminate X; (split; [reflexivity|eexists; reflexivity])
  | intros X; try discriminate X; (repeat split; eexists; reflexivity) ].

(** What a task can emit, by event: an invalidation or a progress of 100
    only when [addFile] is accepted, a call of [addFile] only when a file is
    chosen and no mutation is pending. *)
Lemma emitted_upload_effects (e : Event) (s : State) :
  Inv s ->
  (existsb is_invalidate (emitted e s) = true \/
   existsb sets_progress_100 (emitted e s) = true ->
   isPending (addFileMutation s) = true /\ exists d, e = AddFileSettled (Fulfilled d)) /\
  (existsb is_addFile_call (emitted e s) = true ->
   isPending (addFileMutation s) = false /\ isUploading s = false /\
   exists f, e = FileChosen (Some f)).
Proof.
  intros H. unfold emitted.
  destruct e as [x f|r| |file|r| | |i n|r|i| | | |o].
  - rewrite step_frame by auto using core_ActorChanged.
    destruct s as [m ? ? ? a0 af ? ? ? ? ? ? ?]; destruct x, f, a0, af, m;
      norm_tr; effects_done.
  - rewrite step_frame by auto using core_FilesSettled.
    destruct s as [m ? ? ? a0 af [qd qi [k|]] ? ? ? ? ? ?]; norm_tr;
      [destruct (k r); norm_tr|]; effects_done.
  - inv_cases s H; destruct gm; try discriminate Hqg; norm_tr; effects_done.
  - inv_cases s H; destruct gm; try discriminate Hqg; destruct file, a; norm_tr;
      effects_done.
  - inv_cases s H; destruct gm; try discriminate Hqg; try rewrite (Hak _ eq_refl);
      destruct r, a, af; norm_tr; effects_done.
  - inv_cases s H; destruct gm; try discriminate Hqg;
      try (destruct (Qle_bool 95 (js_add cp increment)) eqn:Hle);
      eval_dispatch; try rewrite Hle; norm_tr; effects_done.
  - inv_cases s H; destruct gm; try discriminate Hqg; norm_tr; effects_done.
  - inv_cases s H; destruct gm; try discriminate Hqg; destruct a; norm_tr; effects_done.
  - inv_cases s H; destruct gm; try discriminate Hqg; try rewrite (Hgk _ eq_refl);
      destruct r as [[[n c]|]|t]; norm_tr; effects_done.
  - rewrite step_frame by (auto; apply core_deletion; eauto).
    destruct s as [[] ? ? ? ? ? ? ? ? ? ? ? ?]; norm_tr; effects_done.
  - rewrite step_frame by (auto; apply core_deletion; eauto).
    destruct s as [[] [] ? ? ? ? ? ? ? ? ? ? ?]; norm_tr; effects_done.
  - rewrite step_frame by (auto; apply core_deletion; eauto).
    destruct s as [[] ? ? ? ? ? ? ? ? ? ? ? ?]; norm_tr; effects_done.
  - inv_cases s H; destruct gm; try discriminate Hqg; norm_tr; effects_done.
  - rewrite step_frame by (auto; apply core_deletion; eauto 6).
    destruct s as [[] ? ? ? ? ? ? ? ? ? ? ? ?], o; norm_tr; effects_done.
Qed.

(** ** Upload: success, failure, single flight *)

Lemma step_core_frame (e : Event) (s : State) :
  Inv s -> core (dispatch e s) = core s -> core (step e s) = core s.
Proof.
  intros HI Hc. now rewrite step_frame.
Qed.

Lemma core_isUploading (s s' : State) : core s' = core s -> isUploading s' = isUploading s.
Proof. unfold core. now intros [= _ _ -> _ _ _ _ _]. Qed.

(** While the reset of the transient state is scheduled, only its timer
    clears the uploading flag. *)
Lemma settle_window (s : State) (e : Event) :
  Inv s -> mounted s = true -> timeouts s <> [] ->
  isUploading (step e s) = false -> e = TimeoutFired.
Proof.
  intros HI Hm Ht.
  assert (Hup : isUploading s = true).
  { destruct (inv_timeouts s HI) as [E|(_ & E & _)]; [contradiction|exact E]. }
  destruct e as [x f|r| |file|r| | |i n|r|i| | | |o]; try reflexivity.
  1,2,9,10,11,13: rewrite (core_isUploading s), Hup by
      (apply step_core_frame;
       auto using core_ActorChanged, core_FilesSettled; apply core_deletion; eauto 6);
    discriminate.
  all: clear Hup; inv_cases s HI; try discriminate Hm; try contradiction;
    destruct gm; try discriminate Hqg.
  all: try (destruct a; norm; discriminate).
  - try rewrite (Hgk _ eq_refl); destruct r as [[[n c]|]|t]; norm; discriminate.
Qed.

Lemma timeout_step (s : State) :
  Inv s -> mounted s = true -> timeouts s <> [] ->
  let s' := step TimeoutFired s in
  emitted TimeoutFired s = [SetIsUploading false; SetUploadProgress 0] /\
  isUploading s' = false /\ uploadProgress s' = 0%Q /\ timeouts s' = [].
Proof.
  intros HI Hm Ht.
  inv_cases s HI; try discriminate Hm; try contradiction;
    destruct gm; try discriminate Hqg; norm_tr; repeat split; reflexivity.
Qed.

Lemma upload_success_Inv (s : State) (d : FileMetadata) :
  reachable s -> Inv (step (AddFileSettled (Fulfilled d)) s).
Proof. intros H. apply step_Inv, reachable_Inv, H. Qed.

Lemma pending_MPending (s : State) :
  Inv s -> isPending (addFileMutation s) = true -> exists k, addFileMutation s = MPending k.
Proof.
  intros HI Hp. pose proof (inv_quiet_add s HI) as Hq.
  destruct (addFileMutation s); try discriminate; eauto.
Qed.

(** C8. Within one successful upload the steps occur in order: the remote
    acceptance, then the invalidation (and refetch) of the File Cache, then
    progress set to 100 with the success notification, and only when the
    500 ms timer fires the transient upload state is cleared; no task
    invalidates the cache unless it is the acceptance of a pending
    [addFile]. *)
Theorem C8_upload_success_order (s : State) (d : FileMetadata) :
  reachable s -> mounted s = true -> isPending (addFileMutation s) = true ->
  let accept := AddFileSettled (Fulfilled d) in
  let s1 := step accept s in
  let s2 := step TimeoutFired s1 in
  emitted accept s =
    ([InvalidateQueries filesKey] ++ refetch s ++
     [SetUploadProgress 100; ToastSuccess "File uploaded successfully!" None;
      SetTimeout 500; ClearInterval])%list /\
  uploadProgress s1 = 100%Q /\ isUploading s1 = true /\ timeouts s1 = [500] /\
  (forall e, isUploading (step e s1) = false -> e = TimeoutFired) /\
  emitted TimeoutFired s1 = [SetIsUploading false; SetUploadProgress 0] /\
  isUploading s2 = false /\ uploadProgress s2 = 0%Q /\ timeouts s2 = [] /\
  (forall s0 e, reachable s0 -> existsb is_invalidate (emitted e s0) = true ->
     isPending (addFileMutation s0) = true /\ exists d', e = AddFileSettled (Fulfilled d')).
Proof.
  intros HR Hm Hp accept s1 s2.
  pose proof (reachable_Inv s HR) as HI.
  destruct (pending_MPending s HI Hp) as [k Hk].
  destruct (upload_success_step s d k HI Hm Hk) as (He & Hu & Hi & Ht & _ & _ & Hm1).
  fold accept s1 in He, Hu, Hi, Ht, Hm1.
  assert (HI1 : Inv s1) by (apply upload_success_Inv, HR).
  assert (Hne : timeouts s1 <> []) by (rewrite Ht; discriminate).
  destruct (timeout_step s1 HI1 Hm1 Hne) as (He2 & Hu2 & Hp2 & Ht2).
  repeat split; try assumption.
  - intros e. now apply settle_window.
  - apply (emitted_upload_effects e s0 (reachable_Inv s0 H)). now left.
  - apply (emitted_upload_effects e s0 (reachable_Inv s0 H)). now left.
Qed.

Lemma C8_upload_success_order_witness :
  emitted (AddFileSettled (Fulfilled (mkFileMetadata 7 "report.pdf" 204800)))
    uploading_state =
  [InvalidateQueries filesKey; Call CallGetFiles; SetUploadProgress 100;
   ToastSuccess "File uploaded successfully!" None; SetTimeout 500; ClearInterval].
Proof.
  apply (C8_upload_success_order uploading_state (mkFileMetadata 7 "report.pdf" 204800)).
  - now exists [ActorChanged (Some backendActor) false; FilesSettled (Fulfilled []);
                ClickUpload; FileChosen (Some (mkFile "report.pdf" 204800))].
  - reflexivity.
  - reflexivity.
Defined.

Lemma upload_failure_step (s : State) (cause : Thrown) k :
  Inv s -> mounted s = true -> addFileMutation s = MPending k ->
  let s' := step (AddFileSettled (RejectedWith cause)) s in
  emitted (AddFileSettled (RejectedWith cause)) s =
    [ToastError "Failed to upload file" None; ConsoleError "Upload error:" cause;
     SetIsUploading false; SetUploadProgress 0; ClearInterval] /\
  filesQuery s' = filesQuery s /\ isUploading s' = false /\
  uploadProgress s' = 0%Q /\ timeouts s' = [] /\ interval s' = None /\
  addFileMutation s' = MError cause.
Proof.
  intros HI Hm Ha. fields s HI. cbn in Hm, Ha. subst m am.
  rewrite (Hak _ eq_refl). specialize (Hpe eq_refl). subst iu.
  destruct Hto as [->|(_ & _ & Hs)]; [|discriminate Hs].
  destruct gm; try discriminate Hqg; norm_tr; repeat split; reflexivity.
Qed.

(** C1. When the remote [addFile] call of a pending upload fails, the task
    that handles the failure shows the fixed toast "Failed to upload file"
    with no description, logs the cause to the console, clears the
    uploading flag and the progress at once and releases the interval; it
    neither invalidates nor refetches the File Cache and schedules no
    timer. The cause reaches the console only, not the notification. *)
Theorem C1_upload_failure_toast_omits_cause (s : State) (cause : Thrown) :
  reachable s -> mounted s = true -> isPending (addFileMutation s) = true ->
  let failure := AddFileSettled (RejectedWith cause) in
  let s' := step failure s in
  emitted failure s =
    [ToastError "Failed to upload file" None; ConsoleError "Upload error:" cause;
     SetIsUploading false; SetUploadProgress 0; ClearInterval] /\
  existsb (toast_carries cause) (emitted failure s) = false /\
  filesQuery s' = filesQuery s /\ isUploading s' = false /\
  uploadProgress s' = 0%Q /\ timeouts s' = [] /\ interval s' = None.
Proof.
  intros HR Hm Hp failure s'.
  pose proof (reachable_Inv s HR) as HI.
  destruct (pending_MPending s HI Hp) as [k Hk].
  destruct (upload_failure_step s cause k HI Hm Hk) as (H1 & H2 & H3 & H4 & H5 & H6 & _).
  split; [exact H1|]. split; [subst failure; rewrite H1; reflexivity|].
  repeat split; assumption.
Qed.

Lemma C1_upload_failure_toast_omits_cause_witness :
  emitted (AddFileSettled (RejectedWith (JsError "quota exceeded"))) pending_x_bin =
  [ToastError "Failed to upload file" None;
   ConsoleError "Upload error:" (JsError "quota exceeded");
   SetIsUploading false; SetUploadProgress 0; ClearInterval].
Proof.
  apply (C1_upload_failure_toast_omits_cause pending_x_bin (JsError "quota exceeded")).
  - now exists [ActorChanged (Some backendActor) false; FilesSettled (Fulfilled []);
                ClickUpload; FileChosen (Some (mkFile "x.bin" 10))].
  - reflexivity.
  - reflexivity.
Defined.

Lemma step_noop (e : Event) (s : State) : Inv s -> dispatch e s = s -> step e s = s.
Proof.
  intros HI Hd. rewrite step_frame; auto. now rewrite Hd.
Qed.

Lemma tick_noop (s : State) : Inv s -> interval s = None -> step IntervalTick s = s.
Proof.
  intros HI Hi. apply step_noop; auto. cbn. now rewrite Hi.
Qed.

(** C7. The upload button is disabled exactly while the uploading flag is
    set, and the flag is set while an [addFile] mutation is pending; in such
    a state a click on the button and a change of the file input leave the
    whole state as it is (nothing is queued), and a task issues an
    [addFile] call only from a state with no pending mutation. *)
Theorem C7_one_upload_in_flight (s : State) :
  reachable s ->
  upload_button_disabled s = isUploading s /\
  (isPending (addFileMutation s) = true ->
   upload_button_disabled s = true /\ chooserOpen s = false /\
   step ClickUpload s = s /\ forall file, step (FileChosen file) s = s) /\
  (forall e, existsb is_addFile_call (emitted e s) = true ->
   isPending (addFileMutation s) = false /\ upload_button_disabled s = false /\
   exists f, e = FileChosen (Some f)).
Proof.
  intros HR. pose proof (reachable_Inv s HR) as HI.
  split; [reflexivity|]. split.
  - intros Hp. pose proof (inv_pending s HI Hp) as Hu.
    assert (Hc : chooserOpen s = false).
    { destruct (chooserOpen s) eqn:E; [|reflexivity].
      rewrite (inv_chooser s HI E) in Hu. discriminate. }
    repeat split; auto.
    + apply step_noop; auto. cbn. unfold upload_button_disabled. rewrite Hu.
      now rewrite andb_false_r.
    + intros file. apply step_noop; auto. cbn. rewrite Hc. now rewrite andb_false_r.
  - intros e He. now apply emitted_upload_effects.
Qed.

Lemma C7_one_upload_in_flight_witness :
  step ClickUpload uploading_state = uploading_state /\
  step (FileChosen (Some (mkFile "second.txt" 1))) uploading_state = uploading_state.
Proof.
  assert (HR : reachable uploading_state).
  { now exists [ActorChanged (Some backendActor) false; FilesSettled (Fulfilled []);
                ClickUpload; FileChosen (Some (mkFile "report.pdf" 204800))]. }
  destruct (C7_one_upload_in_flight uploading_state HR) as (_ & H & _).
  destruct (H eq_refl) as (_ & _ & H1 & H2).
  split; [exact H1 | apply H2].
Defined.

(** ** The progress animation *)

Lemma unmount_step (s : State) :
  Inv s -> mounted s = true -> isPending (addFileMutation s) = true ->
  emitted Unmount s = [ClearInterval] /\ interval (step Unmount s) = None.
Proof.
  intros HI Hm Hp.
  inv_cases s HI; try discriminate Hm; try discriminate Hp;
    destruct gm; try discriminate Hqg; norm_tr; split; reflexivity.
Qed.

Lemma step_tick (s : State) (cp : Q) :
  Inv s -> interval s = Some cp -> step IntervalTick s = interval_callback cp s.
Proof.
  intros HI Hi. fields s HI. cbn in Hi. subst iv.
  destruct Hiv as [-> Hc]; [discriminate|].
  unfold effect_condition in Hc; cbn in Hc. apply andb_prop in Hc. destruct Hc as [-> Hp].
  destruct am; try discriminate Hp; try discriminate Hqa.
  destruct gm; try discriminate Hqg.
  all: unfold interval_callback; eval_dispatch;
    destruct (Qle_bool 95 (js_add cp increment)); norm; reflexivity.
Qed.

Lemma interval_callback_mounted (s : State) (cp : Q) :
  mounted s = true ->
  let s' := interval_callback cp s in
  (Qle_bool 95 (js_add cp increment) = true ->
   uploadProgress s' = 95%Q /\ interval s' = None /\
   trace s' = (trace s ++ [SetUploadProgress 95; ClearInterval])%list) /\
  (Qle_bool 95 (js_add cp increment) = false ->
   uploadProgress s' = (js_add cp increment) /\ interval s' = Some (js_add cp increment) /\
   trace s' = (trace s ++ [SetUploadProgress (js_add cp increment)])%list).
Proof.
  intros Hm. destruct s; cbn in Hm; subst. unfold interval_callback.
  split; intros ->; norm; rewrite <- ?app_assoc; repeat split; reflexivity.
Qed.

(** One tick of a running interval. *)
Lemma tick_step (s : State) (cp : Q) :
  Inv s -> interval s = Some cp ->
  let s' := step IntervalTick s in
  (Qle_bool 95 (js_add cp increment) = true /\
   uploadProgress s' = 95%Q /\ interval s' = None /\
   emitted IntervalTick s = [SetUploadProgress 95; ClearInterval]) \/
  (Qle_bool 95 (js_add cp increment) = false /\
   uploadProgress s' = (js_add cp increment) /\ interval s' = Some (js_add cp increment) /\
   emitted IntervalTick s = [SetUploadProgress (js_add cp increment)]).
Proof.
  intros HI Hi s'.
  assert (Hm : mounted s = true).
  { apply (inv_interval s HI). rewrite Hi. discriminate. }
  unfold emitted. subst s'. rewrite (step_tick s cp HI Hi).
  destruct (interval_callback_mounted s cp Hm) as [Ht Hf].
  destruct (Qle_bool 95 (js_add cp increment)) eqn:E; [left|right].
  - destruct (Ht eq_refl) as (-> & -> & ->). now rewrite skipn_length_app.
  - destruct (Hf eq_refl) as (-> & -> & ->). now rewrite skipn_length_app.
Qed.

Lemma ramp_table :
  forallb (fun n => negb (Qle_bool 95 (ramp n)) && Qle_bool 0 (ramp n) &&
                    Qle_bool (Qabs (ramp n - (19 # 10) * inject_Z (Z.of_nat n)))
                             (1 # 10000000000000))
          (seq 0 50) = true /\
  Qle_bool 95 (ramp 50) = true.
Proof. split; vm_compute; reflexivity. Qed.

(** The first fifty sums stay below 95 and within 10^-13 of [1.9 * n]. *)
Lemma ramp_below (n : nat) :
  (n < 50)%nat ->
  Qle_bool 95 (ramp n) = false /\ (0 <= ramp n)%Q /\
  (Qabs (ramp n - (19 # 10) * inject_Z (Z.of_nat n)) <= 1 # 10000000000000)%Q.
Proof.
  intros Hn. destruct ramp_table as [H _].
  rewrite forallb_forall in H. specialize (H n).
  assert (Hin : In n (seq 0 50)) by (apply in_seq; lia).
  apply H in Hin. apply andb_prop in Hin. destruct Hin as [Hin H3].
  apply andb_prop in Hin. destruct Hin as [H1 H2].
  apply negb_true_iff in H1. apply Qle_bool_iff in H2, H3. repeat split; assumption.
Qed.

Lemma ticks_S (n : nat) (s : State) : ticks (S n) s = step IntervalTick (ticks n s).
Proof. reflexivity. Qed.

Lemma ramp_S (n : nat) : ramp (S n) = js_add (ramp n) increment.
Proof. reflexivity. Qed.

Lemma ticks_Inv (n : nat) (s : State) : Inv s -> Inv (ticks n s).
Proof. intros H. induction n; [exact H|]. rewrite ticks_S. now apply step_Inv. Qed.

(** The animation of a fresh interval: ticks 1 to 49 set the sums, tick 50
    sets 95 and clears the interval, later ticks run nothing. *)
Lemma ramp_ticks (s : State) :
  Inv s -> interval s = Some 0%Q ->
  (forall n, (n < 50)%nat ->
     interval (ticks n s) = Some (ramp n) /\
     ((0 < n)%nat -> uploadProgress (ticks n s) = ramp n)) /\
  (forall n, (50 <= n)%nat ->
     interval (ticks n s) = None /\ uploadProgress (ticks n s) = 95%Q).
Proof.
  intros HI Hi.
  assert (Hlow : forall n, (n < 50)%nat ->
     interval (ticks n s) = Some (ramp n) /\
     ((0 < n)%nat -> uploadProgress (ticks n s) = ramp n)).
  { induction n as [|n IH]; intros Hn.
    - split; [exact Hi|lia].
    - destruct IH as [IHi _]; [lia|].
      destruct (ramp_below (S n)) as [Hb _]; [lia|].
      rewrite ticks_S, ramp_S. rewrite ramp_S in Hb.
      destruct (tick_step (ticks n s) (ramp n) (ticks_Inv n s HI) IHi)
        as [(E & _)|(_ & Hp & Hiv & _)]; [congruence|].
      split; [exact Hiv|intros _; exact Hp]. }
  split; [exact Hlow|].
  induction n as [|n IH]; intros Hn; [lia|].
  rewrite ticks_S.
  destruct (Nat.eq_dec (S n) 50) as [E50|Hne].
  - destruct (Hlow n) as [Hin _]; [lia|].
    destruct ramp_table as [_ Ht]. rewrite <- E50, ramp_S in Ht.
    destruct (tick_step (ticks n s) (ramp n) (ticks_Inv n s HI) Hin)
      as [(_ & Hp & Hiv & _)|(E & _)]; [|congruence].
    split; assumption.
  - destruct IH as [IHi IHp]; [lia|].
    rewrite tick_noop; auto using ticks_Inv.
Qed.

Lemma upload_start_step (s : State) (f : File) :
  Inv s -> mounted s = true -> chooserOpen s = true ->
  let s' := step (FileChosen (Some f)) s in
  let selected :=
    [SetIsUploading true; SetUploadProgress 0;
     ToastSuccess ("Selected: " ++ file_name f)
       (Some ("Size: " ++ toFixed2_kb (file_size f) ++ " KB"))] in
  match actor s with
  | Some _ =>
      emitted (FileChosen (Some f)) s =
        (selected ++ [Call (CallAddFile (file_name f) (BigInt (file_size f)));
                      ResetInputValue; SetInterval 30])%list /\
      isUploading s' = true /\ uploadProgress s' = 0%Q /\ interval s' = Some 0%Q /\
      isPending (addFileMutation s') = true
  | None =>
      emitted (FileChosen (Some f)) s =
        (selected ++ [ResetInputValue; ToastError "Failed to upload file" None;
                      ConsoleError "Upload error:" (JsError "Actor not initialized");
                      SetIsUploading false; SetUploadProgress 0])%list /\
      isUploading s' = false /\ uploadProgress s' = 0%Q /\ interval s' = None /\
      addFileMutation s' = MError (JsError "Actor not initialized")
  end.
Proof.
  intros HI Hm Hc.
  inv_cases s HI; try discriminate Hm; try discriminate Hc;
    destruct gm; try discriminate Hqg; destruct f as [n sz], a; norm_tr;
    repeat split; reflexivity.
Qed.

Lemma Qle_bool_false (x y : Q) : Qle_bool x y = false -> (y <= x)%Q.
Proof.
  intros H. apply Qlt_le_weak, Qnot_le_lt. intros Hle.
  apply Qle_bool_iff in Hle. congruence.
Qed.

Lemma increment_value :
  increment = 4278419646001971 # 2251799813685248 /\ (steps == 50)%Q /\
  (Qabs (increment - (19 # 10)) <= 1 # 2 ^ 53)%Q.
Proof. split; [|split]; vm_compute; first [reflexivity | discriminate]. Qed.

(** The sums of the animation are values of doubles: the conversion to
    [spec_float] and back loses nothing. *)
Lemma ramp_is_double (n : nat) :
  (n <= 50)%nat -> Q_of_double (double_of_Q (ramp n)) = ramp n.
Proof.
  intros Hn.
  assert (H : forallb (fun n => let a := Q_of_double (double_of_Q (ramp n)) in
                                  (Qnum a =? Qnum (ramp n)) &&
                                  (Qden a =? Qden (ramp n))%positive)
                      (seq 0 51) = true) by (vm_compute; reflexivity).
  rewrite forallb_forall in H. specialize (H n).
  assert (Hin : In n (seq 0 51)) by (apply in_seq; lia).
  apply H in Hin. cbv zeta in Hin. apply andb_prop in Hin. destruct Hin as [H1 H2].
  apply Z.eqb_eq in H1. apply Pos.eqb_eq in H2.
  destruct (Q_of_double (double_of_Q (ramp n))), (ramp n). cbn in H1, H2. congruence.
Qed.

(** C2. The progress equals 100 only in a state whose last [addFile]
    mutation succeeded, and [setUploadProgress(100)] is called only by the
    task that handles the acceptance of a pending [addFile]. A tick sets the
    progress to at most 95, in any state the callback runs in. The interval
    is created once per upload, with a period of 30 ms and a closure
    variable at 0; each tick adds the increment, the double nearest to
    95 / (1500 / 30) = 1.9, in double arithmetic and sets the progress to
    the sum, or to 95 when the sum reaches 95, clearing the interval: ticks
    1 to 49 set sums below 95 that are within 10^-13 of 1.9 * n, tick 50
    (50 * 30 ms = 1500 ms) sets 95, later ticks run nothing. All these sums
    are values of doubles. *)
Theorem C2_progress_100_only_on_success (s : State) :
  reachable s ->
  ((uploadProgress s == 100)%Q -> isSuccess (addFileMutation s) = true) /\
  (forall e, existsb sets_progress_100 (emitted e s) = true ->
     isPending (addFileMutation s) = true /\ exists d, e = AddFileSettled (Fulfilled d)) /\
  (forall cp, interval s = Some cp ->
     (uploadProgress (step IntervalTick s) <= 95)%Q /\
     (emitted IntervalTick s = [SetUploadProgress 95; ClearInterval] \/
      emitted IntervalTick s = [SetUploadProgress (js_add cp increment)])) /\
  (forall cp s0, mounted s0 = true ->
     (uploadProgress (interval_callback cp s0) <= 95)%Q) /\
  (interval s = Some 0%Q ->
     (forall n, (0 < n < 50)%nat ->
        uploadProgress (ticks n s) = ramp n /\
        (ramp n < 95)%Q /\
        (Qabs (ramp n - (19 # 10) * inject_Z (Z.of_nat n)) <= 1 # 10000000000000)%Q /\
        interval (ticks n s) <> None) /\
     (forall n, (50 <= n)%nat ->
        uploadProgress (ticks n s) = 95%Q /\ interval (ticks n s) = None)) /\
  increment = 4278419646001971 # 2251799813685248 /\
  (Qabs (increment - (19 # 10)) <= 1 # 2 ^ 53)%Q /\
  (95 <= ramp 50)%Q /\
  (forall n, (n <= 50)%nat -> Q_of_double (double_of_Q (ramp n)) = ramp n) /\
  (inject_Z 50 * intervalTime == duration)%Q /\
  (forall f a, mounted s = true -> chooserOpen s = true -> actor s = Some a ->
     let s' := step (FileChosen (Some f)) s in
     interval s' = Some 0%Q /\ uploadProgress s' = 0%Q /\
     filter is_setInterval (emitted (FileChosen (Some f)) s) = [SetInterval 30]).
Proof.
  intros HR. pose proof (reachable_Inv s HR) as HI.
  split; [apply (inv_progress s HI)|].
  split; [intros e He; apply (emitted_upload_effects e s HI); now right|].
  split.
  { intros cp Hi.
    destruct (tick_step s cp HI Hi) as [(_ & -> & _ & ->)|(Hb & -> & _ & ->)].
    - split; [apply Qle_refl|now left].
    - split; [now apply Qle_bool_false|now right]. }
  split.
  { intros cp s0 Hm. destruct (interval_callback_mounted s0 cp Hm) as [Ht Hf].
    destruct (Qle_bool 95 (js_add cp increment)) eqn:E.
    - destruct (Ht eq_refl) as (-> & _). apply Qle_refl.
    - destruct (Hf eq_refl) as (-> & _). now apply Qle_bool_false. }
  split.
  { intros Hi. destruct (ramp_ticks s HI Hi) as [Hlow Hhigh]. split.
    - intros n [Hn0 Hn]. destruct (Hlow n Hn) as [Hiv Hp].
      rewrite Hiv, (Hp Hn0). destruct (ramp_below n Hn) as (Hb & _ & Habs).
      split; [reflexivity|]. split; [|split; [exact Habs|discriminate]].
      apply Qnot_le_lt. intros Hle. apply Qle_bool_iff in Hle. congruence.
    - intros n Hn. destruct (Hhigh n Hn). now split. }
  destruct increment_value as (Hinc & _ & Habs).
  split; [exact Hinc|]. split; [exact Habs|].
  split; [apply Qle_bool_iff; apply ramp_table|].
  split; [exact ramp_is_double|].
  split; [reflexivity|].
  intros f a Hm Hc Ha s'.
  pose proof (upload_start_step s f HI Hm Hc) as H. cbv zeta in H. rewrite Ha in H.
  destruct H as (He & _ & Hp & Hi & _). subst s'. repeat split; auto.
  rewrite He. reflexivity.
Qed.

Lemma C2_progress_100_only_on_success_witness :
  uploadProgress (ticks 1 uploading_state) = 4278419646001971 # 2251799813685248 /\
  uploadProgress (ticks 3 uploading_state) = 1604407367250739 # 281474976710656 /\
  uploadProgress (ticks 49 uploading_state) = 3275665041470261 # 35184372088832 /\
  uploadProgress (ticks 50 uploading_state) = 95%Q /\
  uploadProgress (ticks 60 uploading_state) = 95%Q.
Proof.
  assert (HR : reachable uploading_state).
  { now exists [ActorChanged (Some backendActor) false; FilesSettled (Fulfilled []);
                ClickUpload; FileChosen (Some (mkFile "report.pdf" 204800))]. }
  destruct (C2_progress_100_only_on_success uploading_state HR)
    as (_ & _ & _ & _ & H & _).
  destruct (H eq_refl) as [Hlow Hhigh].
  split; [|split; [|split; [|split]]].
  - destruct (Hlow 1%nat) as [-> _]; [lia|vm_compute; reflexivity].
  - destruct (Hlow 3%nat) as [-> _]; [lia|vm_compute; reflexivity].
  - destruct (Hlow 49%nat) as [-> _]; [lia|vm_compute; reflexivity].
  - apply Hhigh. lia.
  - apply Hhigh. lia.
Defined.

(** ** Download *)

Lemma download_click_step (s : State) (fileId : Z) (fileName : string) :
  Inv s -> mounted s = true -> download_button_disabled s = false ->
  let s1 := step (ClickDownload fileId fileName) s in
  filesQuery s1 = filesQuery s /\ mounted s1 = true /\
  match actor s with
  | Some _ =>
      emitted (ClickDownload fileId fileName) s = [Call (CallGetFileContent fileId)] /\
      getFileContentMutation s1 = MPending useGetFileContent_after_await
  | None =>
      emitted (ClickDownload fileId fileName) s =
        [ToastError "Failed to download file" (Some "Actor not initialized");
         ConsoleError "Download error:" (JsError "Actor not initialized")] /\
      getFileContentMutation s1 = MError (JsError "Actor not initialized")
  end.
Proof.
  intros HI Hm Hd.
  inv_cases s HI; try discriminate Hm;
    destruct gm; try discriminate Hqg; try discriminate Hd; destruct a; norm_tr;
    repeat split; reflexivity.
Qed.

Lemma download_settle_step (s : State)
  (answer : Settled (option (string * list Byte.byte))) :
  Inv s -> isPending (getFileContentMutation s) = true ->
  let s2 := step (GetFileContentSettled answer) s in
  filesQuery s2 = filesQuery s /\
  match answer with
  | Fulfilled (Some (n, c)) =>
      emitted (GetFileContentSettled answer) s =
        [SaveAs n c; ToastSuccess "Download started!" (Some ("Downloading " ++ n))] /\
      getFileContentMutation s2 = MSuccess (mkFileContent n c)
  | Fulfilled None =>
      emitted (GetFileContentSettled answer) s =
        [ToastError "Failed to download file" (Some "File not found");
         ConsoleError "Download error:" (JsError "File not found")] /\
      getFileContentMutation s2 = MError (JsError "File not found")
  | RejectedWith t =>
      emitted (GetFileContentSettled answer) s =
        [ToastError "Failed to download file"
           (Some match t with
                 | JsError message => message
                 | NonError _ => "Unknown error"
                 end);
         ConsoleError "Download error:" t] /\
      getFileContentMutation s2 = MError t
  end.
Proof.
  intros HI Hp.
  inv_cases s HI;
    destruct gm; try discriminate Hqg; try discriminate Hp;
    rewrite (Hgk _ eq_refl); destruct answer as [[[n c]|]|t]; norm_tr;
    repeat split; reflexivity.
Qed.

Lemma reachable_download_pending (s : State) (fileId : Z) (fileName : string) :
  reachable s -> mounted s = true -> download_button_disabled s = false ->
  actor s <> None ->
  let s1 := step (ClickDownload fileId fileName) s in
  Inv s1 /\ isPending (getFileContentMutation s1) = true /\
  emitted (ClickDownload fileId fileName) s = [Call (CallGetFileContent fileId)].
Proof.
  intros HR Hm Hd Ha s1. pose proof (reachable_Inv s HR) as HI.
  destruct (download_click_step s fileId fileName HI Hm Hd) as (_ & _ & H).
  destruct (actor s); [|contradiction]. destruct H as [He Hg].
  subst s1. rewrite Hg. split; [now apply step_Inv|]. split; [reflexivity|exact He].
Qed.

(** C6. A download whose remote answer is present saves the bytes under
    the name the remote reported and announces that name; the name passed by
    the caller (the one of the cached record) does not occur in what the
    two tasks emit. *)
Theorem C6_download_uses_remote_name
  (s : State) (fileId : Z) (fileName remoteName : string) (bytes : list Byte.byte) :
  reachable s -> mounted s = true -> download_button_disabled s = false ->
  actor s <> None ->
  let s1 := step (ClickDownload fileId fileName) s in
  let present := GetFileContentSettled (Fulfilled (Some (remoteName, bytes))) in
  emitted (ClickDownload fileId fileName) s = [Call (CallGetFileContent fileId)] /\
  emitted present s1 =
    [SaveAs remoteName bytes;
     ToastSuccess "Download started!" (Some ("Downloading " ++ remoteName))] /\
  getFileContentMutation (step present s1) = MSuccess (mkFileContent remoteName bytes).
Proof.
  intros HR Hm Hd Ha s1 present.
  destruct (reachable_download_pending s fileId fileName HR Hm Hd Ha) as (HI1 & Hp & He).
  fold s1 in HI1, Hp.
  destruct (download_settle_step s1 (Fulfilled (Some (remoteName, bytes))) HI1 Hp)
    as (_ & H1 & H2).
  repeat split; assumption.
Qed.

Lemma C6_download_uses_remote_name_witness :
  emitted (GetFileContentSettled
             (Fulfilled (Some ("new-name.txt", [Byte.x68; Byte.x69]))))
          (step (ClickDownload 42 "old-name.txt") connected_state) =
  [SaveAs "new-name.txt" [Byte.x68; Byte.x69];
   ToastSuccess "Download started!" (Some "Downloading new-name.txt")].
Proof.
  apply (C6_download_uses_remote_name connected_state 42 "old-name.txt" "new-name.txt").
  - now exists [ActorChanged (Some backendActor) false;
                FilesSettled (Fulfilled [mkFileMetadata 42 "old-name.txt" 3])].
  - reflexivity.
  - reflexivity.
  - discriminate.
Defined.

(** C5 (as amended). A download whose remote answer is absent fails with
    the error "File not found" and saves nothing; a failed download calls
    the actor once and never again, shows the toast "Failed to download
    file" and logs the thrown value; the description of the toast is the
    message of the thrown value when it is an [Error] and the fixed text
    "Unknown error" otherwise. With no actor the call is not issued and the
    error is "Actor not initialized". *)
Theorem C5_download_failure
  (s : State) (fileId : Z) (fileName : string) :
  reachable s -> mounted s = true -> download_button_disabled s = false ->
  let click := ClickDownload fileId fileName in
  let s1 := step click s in
  let failed description t :=
    [ToastError "Failed to download file" (Some description);
     ConsoleError "Download error:" t] in
  match actor s with
  | None =>
      emitted click s = failed "Actor not initialized" (JsError "Actor not initialized") /\
      download_button_disabled s1 = false
  | Some _ =>
      emitted click s = [Call (CallGetFileContent fileId)] /\
      download_button_disabled s1 = true /\
      (let s2 := step (GetFileContentSettled (Fulfilled None)) s1 in
       emitted (GetFileContentSettled (Fulfilled None)) s1 =
         failed "File not found" (JsError "File not found") /\
       getFileContentMutation s2 = MError (JsError "File not found")) /\
      (forall t,
         let s2 := step (GetFileContentSettled (RejectedWith t)) s1 in
         emitted (GetFileContentSettled (RejectedWith t)) s1 =
           failed match t with
                  | JsError message => message
                  | NonError _ => "Unknown error"
                  end t /\
         getFileContentMutation s2 = MError t)
  end.
Proof.
  intros HR Hm Hd click s1 failed. pose proof (reachable_Inv s HR) as HI.
  destruct (download_click_step s fileId fileName HI Hm Hd) as (_ & _ & H).
  fold click s1 in H.
  destruct (actor s) eqn:Ha; destruct H as [He Hg].
  - assert (HI1 : Inv s1) by (subst s1; auto using step_Inv).
    assert (Hp : isPending (getFileContentMutation s1) = true) by now rewrite Hg.
    split; [exact He|]. split; [exact Hp|]. split.
    + destruct (download_settle_step s1 (Fulfilled None) HI1 Hp) as (_ & H1 & H2).
      now split.
    + intros t.
      destruct (download_settle_step s1 (RejectedWith t) HI1 Hp) as (_ & H1 & H2).
      now split.
  - split; [exact He|]. unfold download_button_disabled. now rewrite Hg.
Qed.

Lemma C5_download_failure_witness :
  emitted (GetFileContentSettled (Fulfilled None))
          (step (ClickDownload 42 "old-name.txt") connected_state) =
  [ToastError "Failed to download file" (Some "File not found");
   ConsoleError "Download error:" (JsError "File not found")].
Proof.
  assert (HR : reachable connected_state).
  { now exists [ActorChanged (Some backendActor) false;
                FilesSettled (Fulfilled [mkFileMetadata 42 "old-name.txt" 3])]. }
  pose proof (C5_download_failure connected_state 42 "old-name.txt" HR eq_refl eq_refl)
    as H.
  cbv zeta in H. change (actor connected_state) with (Some backendActor) in H.
  destruct H as (_ & _ & (H & _) & _). exact H.
Defined.

(** The failure notification of a download does not carry the cause when
    the thrown value is not an [Error]. *)
Lemma C5_counterexample :
  emitted (GetFileContentSettled (RejectedWith (NonError "quota exceeded")))
          (step (ClickDownload 42 "old-name.txt") connected_state) =
    [ToastError "Failed to download file" (Some "Unknown error");
     ConsoleError "Download error:" (NonError "quota exceeded")] /\
  existsb (toast_carries (NonError "quota exceeded"))
    (emitted (GetFileContentSettled (RejectedWith (NonError "quota exceeded")))
             (step (ClickDownload 42 "old-name.txt") connected_state)) = false.
Proof. split; reflexivity. Qed.

(** ** Deletion *)

Lemma delete_click_step (s : State) (fileId : Z) :
  Inv s -> mounted s = true ->
  let p := step (ClickDelete fileId) s in
  fileToDelete p = Some fileId /\ mounted p = true /\ filesQuery p = filesQuery s /\
  addFileMutation p = addFileMutation s /\
  getFileContentMutation p = getFileContentMutation s.
Proof.
  intros HI Hm p. subst p.
  rewrite step_frame by (auto; apply core_deletion; eauto).
  destruct s as [m ftd up iu a af fq am gm co iv ts tr]; cbn in Hm; subst m.
  repeat split; reflexivity.
Qed.

Lemma delete_close_step (p : State) (fileId : Z) :
  Inv p -> mounted p = true -> fileToDelete p = Some fileId ->
  let confirmed := step ClickConfirm p in
  let cancelled := step ClickCancel p in
  emitted ClickConfirm p =
    [ToastError "Delete functionality not yet implemented in backend" None;
     SetFileToDelete None] /\
  deletion_state confirmed = Idle /\
  filesQuery confirmed = filesQuery p /\
  addFileMutation confirmed = addFileMutation p /\
  getFileContentMutation confirmed = getFileContentMutation p /\
  emitted ClickCancel p = [SetFileToDelete None] /\
  deletion_state cancelled = Idle /\
  filesQuery cancelled = filesQuery p.
Proof.
  intros HI Hm Hd confirmed cancelled. subst confirmed cancelled. unfold emitted.
  rewrite !step_frame by (auto; apply core_deletion; eauto).
  clear HI. destruct p as [m ftd up iu a af fq am gm co iv ts tr]; cbn in Hm, Hd; subst.
  norm_tr. repeat split; reflexivity.
Qed.

(** C4. For every file id, present in the cache or not: a click on Delete
    opens the confirmation for that id; confirming shows the fixed toast
    "Delete functionality not yet implemented in backend" and closes the
    confirmation, cancelling only closes it; neither calls the actor, and
    the File Cache and both mutations are left as they were. *)
Theorem C4_deletion_is_unsupported (s : State) (fileId : Z) :
  reachable s -> mounted s = true ->
  let p := step (ClickDelete fileId) s in
  let confirmed := step ClickConfirm p in
  let cancelled := step ClickCancel p in
  deletion_state p = PendingConfirmation fileId /\
  emitted ClickConfirm p =
    [ToastError "Delete functionality not yet implemented in backend" None;
     SetFileToDelete None] /\
  deletion_state confirmed = Idle /\
  filesQuery confirmed = filesQuery s /\
  addFileMutation confirmed = addFileMutation s /\
  getFileContentMutation confirmed = getFileContentMutation s /\
  emitted ClickCancel p = [SetFileToDelete None] /\
  deletion_state cancelled = Idle /\
  filesQuery cancelled = filesQuery s.
Proof.
  intros HR Hm p confirmed cancelled. pose proof (reachable_Inv s HR) as HI.
  destruct (delete_click_step s fileId HI Hm) as (Hd & Hmp & Hq & Ha & Hg).
  fold p in Hd, Hmp, Hq, Ha, Hg.
  assert (HIp : Inv p) by (subst p; now apply step_Inv).
  destruct (delete_close_step p fileId HIp Hmp Hd)
    as (H1 & H2 & H3 & H4 & H5 & H6 & H7 & H8).
  fold confirmed cancelled in H2, H3, H4, H5, H7, H8.
  unfold deletion_state at 1. rewrite Hd.
  repeat split; try assumption; congruence.
Qed.

Lemma C4_deletion_is_unsupported_witness :
  emitted ClickConfirm (step (ClickDelete 7) init) =
    [ToastError "Delete functionality not yet implemented in backend" None;
     SetFileToDelete None] /\
  filesQuery (step ClickConfirm (step (ClickDelete 7) init)) = filesQuery init.
Proof.
  destruct (C4_deletion_is_unsupported init 7 reachable_init eq_refl)
    as (_ & H1 & _ & H2 & _).
  split; assumption.
Defined.

(** ** Submission and its preconditions *)

(** C3 (as amended). [submit] checks neither the name nor the size: with an
    actor, [mutationFn] forwards whatever name and size it is given to
    [addFile] and settles as the actor does; without an actor it issues no
    call and rejects with "Actor not initialized". A file chosen in the
    chooser is submitted with its own name, empty or not, and with its
    size, which is a non-negative integer because it is one of a [File]. *)
Theorem C3_submit_forwards_unchecked
  (s : State) (f : File) (name : string) (size : Z) (answer : Settled FileMetadata) :
  reachable s -> mounted s = true -> chooserOpen s = true ->
  (forall a, calls_of (useAddFile_mutationFn (Some a) name size) = [CallAddFile name size] /\
             settle (useAddFile_mutationFn (Some a) name size) answer = answer) /\
  calls_of (useAddFile_mutationFn None name size) = [] /\
  settle (useAddFile_mutationFn None name size) answer =
    RejectedWith (JsError "Actor not initialized") /\
  0 <= BigInt (file_size f) /\
  let selected :=
    [SetIsUploading true; SetUploadProgress 0;
     ToastSuccess ("Selected: " ++ file_name f)
       (Some ("Size: " ++ toFixed2_kb (file_size f) ++ " KB"))] in
  match actor s with
  | Some _ =>
      emitted (FileChosen (Some f)) s =
        (selected ++ [Call (CallAddFile (file_name f) (BigInt (file_size f)));
                      ResetInputValue; SetInterval 30])%list
  | None =>
      emitted (FileChosen (Some f)) s =
        (selected ++ [ResetInputValue; ToastError "Failed to upload file" None;
                      ConsoleError "Upload error:" (JsError "Actor not initialized");
                      SetIsUploading false; SetUploadProgress 0])%list
  end.
Proof.
  intros HR Hm Hc. pose proof (reachable_Inv s HR) as HI.
  split; [intros []; split; reflexivity|].
  split; [reflexivity|]. split; [reflexivity|].
  split; [apply N2Z.is_nonneg|].
  pose proof (upload_start_step s f HI Hm Hc) as H. cbv zeta in H. cbv zeta.
  destruct (actor s); apply H.
Qed.

Lemma C3_submit_forwards_unchecked_witness :
  emitted (FileChosen (Some (mkFile "x.bin" 10))) chooser_state =
  [SetIsUploading true; SetUploadProgress 0;
   ToastSuccess "Selected: x.bin" (Some "Size: 0.01 KB");
   Call (CallAddFile "x.bin" 10); ResetInputValue; SetInterval 30].
Proof.
  assert (HR : reachable chooser_state).
  { now exists [ActorChanged (Some backendActor) false; ClickUpload]. }
  pose proof (C3_submit_forwards_unchecked chooser_state (mkFile "x.bin" 10) "x.bin" 10
                (RejectedWith (JsError "quota exceeded")) HR eq_refl eq_refl) as H.
  destruct H as (_ & _ & _ & _ & H). exact H.
Defined.

(** An empty name and a negative size, which the stated preconditions
    exclude, are forwarded to the actor. *)
Lemma C3_counterexample :
  submit_precondition EmptyString (-1) = false /\
  calls_of (useAddFile_mutationFn (Some backendActor) EmptyString (-1)) =
    [CallAddFile EmptyString (-1)] /\
  existsb is_addFile_call
    (emitted (FileChosen (Some (mkFile EmptyString 0))) chooser_state) = true.
Proof. repeat split; reflexivity. Qed.

(** ** The listing without an actor *)

Ltac unbound_done :=
  norm; constructor; try reflexivity;
  cbn [trace]; rewrite ?existsb_app; cbn [existsb is_getFiles_call orb];
  rewrite ?orb_false_r; assumption.

Lemma step_Unbound (e : Event) (s : State) :
  Inv s -> Unbound s -> Unbound (step (without_actor e) s).
Proof.
  intros HI [Ha Hd Hf Hc].
  destruct e as [x f|r| |file|r| | |i n|r|i| | | |o]; cbn [without_actor].
  - rewrite step_frame by auto using core_ActorChanged.
    destruct s as [m ftd up iu a af [qd qi qf] am gm co iv ts tr]; cbn in Ha, Hd, Hf, Hc;
      subst. destruct f, af, m; unbound_done.
  - rewrite step_frame by auto using core_FilesSettled.
    destruct s as [m ftd up iu a af [qd qi qf] am gm co iv ts tr]; cbn in Ha, Hd, Hf, Hc;
      subst. unbound_done.
  - inv_cases s HI; destruct gm; try discriminate Hqg; destruct fq as [qd qi qf];
      cbn in Ha, Hd, Hf, Hc; subst; unbound_done.
  - inv_cases s HI; destruct gm; try discriminate Hqg; destruct fq as [qd qi qf];
      cbn in Ha, Hd, Hf, Hc; subst; destruct file; unbound_done.
  - inv_cases s HI; destruct gm; try discriminate Hqg; destruct fq as [qd qi qf];
      cbn in Ha, Hd, Hf, Hc; subst; try rewrite (Hak _ eq_refl); destruct r, af;
      unbound_done.
  - inv_cases s HI; destruct gm; try discriminate Hqg; destruct fq as [qd qi qf];
      cbn in Ha, Hd, Hf, Hc; subst;
      try (destruct (Qle_bool 95 (js_add cp increment)) eqn:Hle);
      eval_dispatch; try rewrite Hle; unbound_done.
  - inv_cases s HI; destruct gm; try discriminate Hqg; destruct fq as [qd qi qf];
      cbn in Ha, Hd, Hf, Hc; subst; unbound_done.
  - inv_cases s HI; destruct gm; try discriminate Hqg; destruct fq as [qd qi qf];
      cbn in Ha, Hd, Hf, Hc; subst; unbound_done.
  - inv_cases s HI; destruct gm; try discriminate Hqg; destruct fq as [qd qi qf];
      cbn in Ha, Hd, Hf, Hc; subst; try rewrite (Hgk _ eq_refl);
      destruct r as [[[n c]|]|t]; unbound_done.
  - rewrite step_frame by (auto; apply core_deletion; eauto).
    destruct s as [[] ftd up iu a af [qd qi qf] am gm co iv ts tr]; cbn in Ha, Hd, Hf, Hc;
      subst; unbound_done.
  - rewrite step_frame by (auto; apply core_deletion; eauto).
    destruct s as [[] [] up iu a af [qd qi qf] am gm co iv ts tr]; cbn in Ha, Hd, Hf, Hc;
      subst; unbound_done.
  - rewrite step_frame by (auto; apply core_deletion; eauto).
    destruct s as [[] ftd up iu a af [qd qi qf] am gm co iv ts tr]; cbn in Ha, Hd, Hf, Hc;
      subst; unbound_done.
  - inv_cases s HI; destruct gm; try discriminate Hqg; destruct fq as [qd qi qf];
      cbn in Ha, Hd, Hf, Hc; subst; unbound_done.
  - rewrite step_frame by (auto; apply core_deletion; eauto 6).
    destruct s as [[] ftd up iu a af [qd qi qf] am gm co iv ts tr], o;
      cbn in Ha, Hd, Hf, Hc; subst; unbound_done.
Qed.

Lemma run_Unbound (es : list Event) (s : State) :
  Inv s -> Unbound s -> Unbound (run (map without_actor es) s).
Proof.
  revert s. induction es as [|e es IH]; intros s HI HU; [exact HU|].
  cbn [map run]. apply IH; auto using step_Inv, step_Unbound.
Qed.

(** C10. Without an actor the [queryFn] of the listing resolves to the
    empty list, issuing no call and raising no error, which is what it
    resolves to with an actor whose store is empty; and the query is not
    enabled: as long as [useActor] returns no actor, no [getFiles] call is
    issued and the list the component renders is empty. With an actor the
    query is enabled exactly when the actor is not being fetched. *)
Theorem C10_unavailable_binding_lists_nothing
  (fetching : bool) (answer : Settled (list FileMetadata)) (a : Actor)
  (es : list Event) :
  settle (useGetFiles_queryFn None) answer = Fulfilled [] /\
  calls_of (useGetFiles_queryFn None) = [] /\
  settle (useGetFiles_queryFn (Some a)) (Fulfilled []) =
    settle (useGetFiles_queryFn None) answer /\
  useGetFiles_enabled None fetching = false /\
  useGetFiles_enabled (Some a) fetching = negb fetching /\
  files (run (map without_actor es) init) = [] /\
  existsb is_getFiles_call (trace (run (map without_actor es) init)) = false.
Proof.
  repeat (split; [reflexivity|]).
  destruct (run_Unbound es init Inv_init) as [_ Hd _ Hc].
  - constructor; reflexivity.
  - split; [|exact Hc]. unfold files. now rewrite Hd.
Qed.

(** ** The icon of a file *)

Lemma split_nonempty sep s : split sep s <> [].
Proof.
  destruct s as [|c rest]; cbn [split]; [discriminate|].
  destruct (Ascii.eqb c sep); [discriminate|].
  destruct (split sep rest); discriminate.
Qed.

Lemma split_app sep (s1 s2 : string) :
  split sep (s1 ++ String sep s2) = (split sep s1 ++ split sep s2)%list.
Proof.
  induction s1 as [|c s1 IH]; cbn [append split app].
  - now rewrite Ascii.eqb_refl.
  - rewrite IH. destruct (Ascii.eqb c sep); [reflexivity|].
    pose proof (split_nonempty sep s1) as Hne.
    destruct (split sep s1); [contradiction|reflexivity].
Qed.

Lemma split_no_dot (s : string) : has_dot s = false -> split "." s = [s].
Proof.
  unfold has_dot. induction s as [|c s IH]; [reflexivity|].
  cbn [list_ascii_of_string existsb split].
  intros H. apply orb_false_iff in H. destruct H as [Hc Hs].
  rewrite Ascii.eqb_sym in Hc. rewrite Hc, (IH Hs). reflexivity.
Qed.

Lemma pop_app (l l' : list string) : l' <> [] -> pop (l ++ l') = pop l'.
Proof.
  intros Hne. unfold pop. rewrite rev_app_distr.
  destruct (rev l') eqn:E; [|reflexivity].
  apply (f_equal (@rev string)) in E. rewrite rev_involutive in E. contradiction.
Qed.

(** X1. Only the part of the name after its last dot decides the icon. *)
Theorem getFileIcon_last_segment (stem ext : string) :
  has_dot ext = false ->
  getFileIcon (stem ++ "." ++ ext) = getFileIcon ext.
Proof.
  intros H. unfold getFileIcon. cbn [append].
  rewrite split_app, pop_app by apply split_nonempty.
  reflexivity.
Qed.

Lemma getFileIcon_last_segment_witness :
  getFileIcon ("archive.2024.PDF") = getFileIcon "PDF" /\
  getFileIcon "PDF" = Lucide.FileText.
Proof.
  split; [|reflexivity].
  apply (getFileIcon_last_segment "archive.2024" "PDF"). reflexivity.
Defined.

Lemma lower_ascii_dot (c : ascii) : Ascii.eqb (lower_ascii c) "." = Ascii.eqb c ".".
Proof.
  unfold lower_ascii.
  destruct ((65 <=? N_of_ascii c)%N && (N_of_ascii c <=? 90)%N) eqn:E; [|reflexivity].
  apply andb_prop in E. destruct E as [E1 E2].
  apply N.leb_le in E1, E2.
  destruct (Ascii.eqb_spec c "."); [subst; cbn in E1; lia|].
  destruct (Ascii.eqb_spec (ascii_of_N (N_of_ascii c + 32)) "."); [|reflexivity].
  apply (f_equal N_of_ascii) in e. rewrite N_ascii_embedding in e by lia.
  cbn in e. lia.
Qed.

Lemma split_toLowerCase (s : string) :
  split "." (toLowerCase s) = map toLowerCase (split "." s).
Proof.
  induction s as [|c s IH]; cbn [toLowerCase split map]; [reflexivity|].
  rewrite lower_ascii_dot, IH.
  destruct (Ascii.eqb c "."); [reflexivity|].
  destruct (split "." s); reflexivity.
Qed.

Lemma pop_map (f : string -> string) (l : list string) :
  pop (map f l) = option_map f (pop l).
Proof.
  unfold pop. rewrite <- map_rev. destruct (rev l); reflexivity.
Qed.

Lemma lower_ascii_idem (c : ascii) : lower_ascii (lower_ascii c) = lower_ascii c.
Proof.
  destruct ((65 <=? N_of_ascii c)%N && (N_of_ascii c <=? 90)%N) eqn:E.
  - assert (Hl : lower_ascii c = ascii_of_N (N_of_ascii c + 32))
      by (unfold lower_ascii; now rewrite E).
    apply andb_prop in E. destruct E as [E1 E2]. apply N.leb_le in E1, E2.
    rewrite Hl. unfold lower_ascii. rewrite N_ascii_embedding by lia.
    destruct ((65 <=? N_of_ascii c + 32)%N && (N_of_ascii c + 32 <=? 90)%N) eqn:E';
      [|reflexivity].
    apply andb_prop in E'. destruct E' as [_ E']. apply N.leb_le in E'. lia.
  - assert (Hl : lower_ascii c = c) by (unfold lower_ascii; now rewrite E).
    now rewrite !Hl.
Qed.

Lemma toLowerCase_idem (s : string) : toLowerCase (toLowerCase s) = toLowerCase s.
Proof.
  induction s as [|c s IH]; cbn [toLowerCase]; [reflexivity|].
  now rewrite lower_ascii_idem, IH.
Qed.

Lemma getFileIcon_toLowerCase (name : string) :
  getFileIcon (toLowerCase name) = getFileIcon name.
Proof.
  unfold getFileIcon. rewrite split_toLowerCase, pop_map.
  destruct (pop (split "." name)); cbn; [|reflexivity].
  now rewrite toLowerCase_idem.
Qed.

(** X2. Names that differ only in the case of their letters get the same
    icon. *)
Theorem getFileIcon_ignores_case (a b : string) :
  toLowerCase a = toLowerCase b -> getFileIcon a = getFileIcon b.
Proof.
  intros H. rewrite <- (getFileIcon_toLowerCase a), <- (getFileIcon_toLowerCase b).
  now rewrite H.
Qed.

Lemma getFileIcon_ignores_case_witness :
  getFileIcon "Holiday.JPeG" = getFileIcon "holiday.jpeg" /\
  getFileIcon "holiday.jpeg" = Lucide.Image.
Proof.
  split; [|reflexivity].
  apply (getFileIcon_ignores_case "Holiday.JPeG" "holiday.jpeg"). reflexivity.
Defined.

(** X3. A name that ends with a dot has an empty extension and gets the
    generic icon, whatever precedes the dot. *)
Theorem getFileIcon_trailing_dot (stem : string) :
  getFileIcon (stem ++ ".") = Lucide.File.
Proof.
  unfold getFileIcon. rewrite split_app, pop_app by apply split_nonempty. reflexivity.
Qed.

(** ** The size of a file in the list *)

Lemma hundredths_kb_Z (z : Z) :
  0 <= z -> Z.of_N (hundredths (inject_Z z / 1024)) = (z * 200 + 1024) / 2048.
Proof.
  intros Hz. unfold hundredths, Qfloor. cbn.
  rewrite Z.mul_1_r, Z.abs_eq by lia.
  rewrite Z2N.id by (apply Z.div_pos; lia). f_equal. lia.
Qed.

Lemma hundredths_mb_Z (z : Z) :
  0 <= z ->
  Z.of_N (hundredths (inject_Z z / 1024 / 1024)) = (z * 200 + 1048576) / 2097152.
Proof.
  intros Hz. unfold hundredths, Qfloor. cbn.
  rewrite !Z.mul_1_r, Z.abs_eq by lia.
  rewrite Z2N.id by (apply Z.div_pos; lia). f_equal. lia.
Qed.

Lemma hundredths_kb (n : N) :
  hundredths (inject_Z (Z.of_N n) / 1024) = hundredths_of_kb n.
Proof.
  apply N2Z.inj. rewrite hundredths_kb_Z by apply N2Z.is_nonneg.
  unfold hundredths_of_kb. rewrite N2Z.inj_div, N2Z.inj_add, N2Z.inj_mul. reflexivity.
Qed.

Lemma formatFileSize_kb (bytes : Z) :
  0 <= bytes < 1048576 ->
  formatFileSize bytes = fixed2 (hundredths (inject_Z bytes / 1024)) ++ " KB".
Proof.
  intros H. unfold formatFileSize, toFixed2.
  replace (Qle_bool 1024 (inject_Z bytes / 1024)) with false.
  - replace (Qle_bool 0 (inject_Z bytes / 1024)) with true; [reflexivity|].
    symmetry. unfold Qle_bool. cbn. apply Z.leb_le. lia.
  - symmetry. unfold Qle_bool. cbn. apply Z.leb_gt. lia.
Qed.

Lemma formatFileSize_mb (bytes : Z) :
  1048576 <= bytes ->
  formatFileSize bytes = fixed2 (hundredths (inject_Z bytes / 1024 / 1024)) ++ " MB".
Proof.
  intros H. unfold formatFileSize, toFixed2.
  replace (Qle_bool 1024 (inject_Z bytes / 1024)) with true.
  - replace (Qle_bool 0 (inject_Z bytes / 1024 / 1024)) with true; [reflexivity|].
    symmetry. unfold Qle_bool. cbn. apply Z.leb_le. lia.
  - symmetry. unfold Qle_bool. cbn. apply Z.leb_le. lia.
Qed.

(** X4. The list shows a size below 1 MiB in KB, with a number of at most
    1024.00, and a size of 1 MiB or more in MB, with a number of at least
    1.00. *)
Theorem formatFileSize_unit (bytes : Z) :
  0 <= bytes < 2 ^ 53 ->
  exists h : N,
    (bytes < 1048576 /\ formatFileSize bytes = fixed2 h ++ " KB" /\ (h <= 102400)%N) \/
    (1048576 <= bytes /\ formatFileSize bytes = fixed2 h ++ " MB" /\ (100 <= h)%N).
Proof.
  intros [H0 H53]. destruct (Z_lt_le_dec bytes 1048576) as [Hlt|Hge].
  - exists (hundredths (inject_Z bytes / 1024)). left.
    split; [exact Hlt|]. split; [apply formatFileSize_kb; lia|].
    apply N2Z.inj_le. rewrite hundredths_kb_Z by lia.
    apply Z.lt_succ_r. apply Z.div_lt_upper_bound; lia.
  - exists (hundredths (inject_Z bytes / 1024 / 1024)). right.
    split; [exact Hge|]. split; [apply formatFileSize_mb; lia|].
    apply N2Z.inj_le. rewrite hundredths_mb_Z by lia.
    apply Z.div_le_lower_bound; lia.
Qed.

Lemma formatFileSize_unit_witness :
  exists h : N, formatFileSize 5242880 = fixed2 h ++ " MB" /\ (100 <= h)%N.
Proof.
  destruct (formatFileSize_unit 5242880) as [h [(H & _)|(_ & E & B)]]; [cbn; lia|lia|].
  exists h. split; assumption.
Defined.

(** X5. Sizes from 1048571 to 1048575 bytes, although below 1 MiB, are shown
    as "1024.00 KB": the unit is chosen before the number is rounded. *)
Theorem formatFileSize_just_below_mb (bytes : Z) :
  1048571 <= bytes < 1048576 -> formatFileSize bytes = "1024.00 KB".
Proof.
  intros H. rewrite formatFileSize_kb by lia.
  assert (E : hundredths (inject_Z bytes / 1024) = 102400%N).
  { apply N2Z.inj. rewrite hundredths_kb_Z by lia.
    symmetry. apply Z.div_unique with (r := bytes * 200 + 1024 - 2048 * 102400); lia. }
  rewrite E. reflexivity.
Qed.

Lemma formatFileSize_just_below_mb_witness :
  formatFileSize 1048575 = "1024.00 KB" /\ formatFileSize 1048576 = "1.00 MB".
Proof.
  split; [apply (formatFileSize_just_below_mb 1048575); lia|reflexivity].
Defined.

Lemma two_digits_table :
  forallb (fun n => let m := N.of_nat n in
                    N.eqb (read_two_digits (two_digits m)) m &&
                    Nat.eqb (String.length (two_digits m)) 2)
          (seq 0 100) = true.
Proof. vm_compute. reflexivity. Qed.

Lemma two_digits_read (m : N) :
  (m < 100)%N -> read_two_digits (two_digits m) = m /\ String.length (two_digits m) = 2%nat.
Proof.
  intros Hm. pose proof two_digits_table as H. rewrite forallb_forall in H.
  specialize (H (N.to_nat m)). rewrite N2Nat.id in H.
  assert (Hin : In (N.to_nat m) (seq 0 100)) by (apply in_seq; lia).
  apply H in Hin. apply andb_prop in Hin. destruct Hin as [H1 H2].
  apply N.eqb_eq in H1. apply Nat.eqb_eq in H2. now split.
Qed.

Lemma length_append (a b : string) :
  String.length (a ++ b) = (String.length a + String.length b)%nat.
Proof. induction a as [|c a IH]; cbn; [reflexivity|]. now rewrite IH. Qed.

Lemma append_inj_tail (a1 a2 b1 b2 : string) :
  String.length b1 = String.length b2 -> a1 ++ b1 = a2 ++ b2 -> a1 = a2 /\ b1 = b2.
Proof.
  intros Hl. revert a2. induction a1 as [|c a1 IH]; intros [|c2 a2] H; cbn [append] in H.
  - now split.
  - exfalso. apply (f_equal String.length) in H. cbn in H.
    rewrite length_append in H. lia.
  - exfalso. apply (f_equal String.length) in H. cbn in H.
    rewrite length_append in H. lia.
  - injection H as -> H. destruct (IH a2 H) as [-> ->]. now split.
Qed.

Lemma string_of_uint_N_inj (a b : N) :
  NilZero.string_of_uint (N.to_uint a) = NilZero.string_of_uint (N.to_uint b) -> a = b.
Proof.
  intros H. apply (f_equal NilZero.uint_of_string) in H.
  assert (Hn : forall n, N.to_uint n <> Decimal.Nil).
  { intros [|p]; [discriminate|]. apply DecimalPos.Unsigned.to_uint_nonnil. }
  rewrite !NilZero.usu in H by apply Hn.
  injection H as H. now apply DecimalN.Unsigned.to_uint_inj.
Qed.

(** The text of a number of hundredths determines it. *)
Lemma fixed2_inj (h1 h2 : N) : fixed2 h1 = fixed2 h2 -> h1 = h2.
Proof.
  unfold fixed2. intros H.
  destruct (two_digits_read (h1 mod 100)) as [R1 L1]; [apply N.mod_lt; lia|].
  destruct (two_digits_read (h2 mod 100)) as [R2 L2]; [apply N.mod_lt; lia|].
  apply append_inj_tail in H; [|cbn; congruence].
  destruct H as [Hd Ht]. injection Ht as Ht.
  apply string_of_uint_N_inj in Hd.
  assert (Hm : (h1 mod 100 = h2 mod 100)%N) by congruence.
  rewrite (N.div_mod h1 100), (N.div_mod h2 100) by lia. congruence.
Qed.

Lemma hundredths_kb_bounds (z : Z) :
  0 <= z ->
  let h := Z.of_N (hundredths (inject_Z z / 1024)) in
  2048 * h <= z * 200 + 1024 < 2048 * h + 2048.
Proof.
  intros Hz h. subst h. rewrite hundredths_kb_Z by lia.
  pose proof (Z.div_mod (z * 200 + 1024) 2048 ltac:(lia)) as E.
  pose proof (Z.mod_pos_bound (z * 200 + 1024) 2048 ltac:(lia)) as B. lia.
Qed.

(** X7. Two sizes below 1 MiB that the list shows with the same text differ
    by at most 10 bytes. *)
Theorem formatFileSize_same_text (a b : Z) :
  0 <= a < 1048576 -> 0 <= b < 1048576 ->
  formatFileSize a = formatFileSize b -> Z.abs (a - b) <= 10.
Proof.
  intros Ha Hb H. rewrite !formatFileSize_kb in H by lia.
  apply append_inj_tail in H; [|reflexivity]. destruct H as [H _].
  apply fixed2_inj in H.
  pose proof (hundredths_kb_bounds a ltac:(lia)) as Ba.
  pose proof (hundredths_kb_bounds b ltac:(lia)) as Bb.
  cbv zeta in Ba, Bb. rewrite H in Ba. lia.
Qed.

Lemma formatFileSize_same_text_witness :
  formatFileSize 2048 = formatFileSize 2050 /\ Z.abs (2048 - 2050) <= 10.
Proof.
  split; [reflexivity|].
  apply (formatFileSize_same_text 2048 2050); [lia|lia|reflexivity].
Defined.

(** X8. The number shown is within half a hundredth of the size in its
    unit. *)
Theorem formatFileSize_accuracy (bytes : Z) :
  0 <= bytes < 2 ^ 53 ->
  exists (h : N) (unit : string) (scale : Z),
    formatFileSize bytes = fixed2 h ++ unit /\
    ((unit = " KB" /\ scale = 1024) \/ (unit = " MB" /\ scale = 1048576)) /\
    Z.abs (2 * (scale * Z.of_N h - 100 * bytes)) <= scale.
Proof.
  intros [H0 H53]. destruct (Z_lt_le_dec bytes 1048576) as [Hlt|Hge].
  - exists (hundredths (inject_Z bytes / 1024)), " KB", 1024.
    split; [apply formatFileSize_kb; lia|]. split; [now left|].
    pose proof (hundredths_kb_bounds bytes H0) as B. cbv zeta in B. lia.
  - exists (hundredths (inject_Z bytes / 1024 / 1024)), " MB", 1048576.
    split; [apply formatFileSize_mb; lia|]. split; [now right|].
    rewrite hundredths_mb_Z by lia.
    pose proof (Z.div_mod (bytes * 200 + 1048576) 2097152 ltac:(lia)) as E.
    pose proof (Z.mod_pos_bound (bytes * 200 + 1048576) 2097152 ltac:(lia)) as B. lia.
Qed.

Lemma formatFileSize_accuracy_witness :
  exists (h : N) (unit : string) (scale : Z),
    formatFileSize 1500 = fixed2 h ++ unit /\
    ((unit = " KB" /\ scale = 1024) \/ (unit = " MB" /\ scale = 1048576)) /\
    Z.abs (2 * (scale * Z.of_N h - 100 * 1500)) <= scale.
Proof.
  apply (formatFileSize_accuracy 1500). cbn. lia.
Defined.

Lemma toFixed2_kb_fixed2 (n : N) : toFixed2_kb n = fixed2 (hundredths_of_kb n).
Proof. reflexivity. Qed.

(** X6. The size in the "Selected" toast of an upload and the size in the
    list are the same text for a file below 1 MiB. From 1 MiB on they
    differ: the toast still counts in KB, with a number of at least
    1024.00, and the list counts in MB. *)
Theorem selected_toast_agrees_with_list (n : N) :
  (n < 2 ^ 53)%N ->
  ((n < 1048576)%N -> toFixed2_kb n ++ " KB" = formatFileSize (BigInt n)) /\
  ((1048576 <= n)%N ->
   exists hk hm : N,
     toFixed2_kb n ++ " KB" = fixed2 hk ++ " KB" /\ (102400 <= hk)%N /\
     formatFileSize (BigInt n) = fixed2 hm ++ " MB" /\ (100 <= hm)%N /\
     toFixed2_kb n ++ " KB" <> formatFileSize (BigInt n)).
Proof.
  intros H53. unfold BigInt. split.
  - intros Hlt. rewrite formatFileSize_kb by lia. now rewrite hundredths_kb.
  - intros Hge.
    exists (hundredths_of_kb n), (hundredths (inject_Z (Z.of_N n) / 1024 / 1024)).
    assert (Hmb : formatFileSize (Z.of_N n) =
                  fixed2 (hundredths (inject_Z (Z.of_N n) / 1024 / 1024)) ++ " MB")
      by (apply formatFileSize_mb; lia).
    split; [now rewrite toFixed2_kb_fixed2|].
    split; [unfold hundredths_of_kb; apply N.div_le_lower_bound; lia|].
    split; [exact Hmb|].
    split.
    + apply N2Z.inj_le. rewrite hundredths_mb_Z by lia.
      apply Z.div_le_lower_bound; lia.
    + rewrite Hmb, toFixed2_kb_fixed2. intros E.
      apply append_inj_tail in E; [|reflexivity]. destruct E as [_ E]. discriminate E.
Qed.

Lemma selected_toast_agrees_with_list_witness :
  toFixed2_kb 204800 ++ " KB" = formatFileSize 204800 /\
  toFixed2_kb 5242880 ++ " KB" <> formatFileSize 5242880.
Proof.
  split.
  - apply (selected_toast_agrees_with_list 204800); reflexivity.
  - destruct (selected_toast_agrees_with_list 5242880 eq_refl) as [_ H].
    destruct H as (hk & hm & _ & _ & _ & _ & Hne); [discriminate|exact Hne].
Defined.

(** ** The share link and the copy indicator *)

Lemma to_int_not_nil (z : Z) :
  Z.to_int z <> Decimal.Pos Decimal.Nil /\ Z.to_int z <> Decimal.Neg Decimal.Nil.
Proof.
  destruct z as [|p|p]; cbn; split; try discriminate; intros [= H];
    now apply DecimalPos.Unsigned.to_uint_nonnil in H.
Qed.

Lemma bigint_toString_inj (a b : Z) : bigint_toString a = bigint_toString b -> a = b.
Proof.
  unfold bigint_toString. intros H.
  apply (f_equal NilZero.int_of_string) in H.
  rewrite !NilZero.isi in H by apply to_int_not_nil.
  injection H as H. now apply DecimalZ.to_int_inj.
Qed.

Lemma append_inj_head (p a b : string) : p ++ a = p ++ b -> a = b.
Proof. induction p as [|c p IH]; cbn; [auto|]. intros [= H]. auto. Qed.

(** X9. Files with different ids have different share links, and the link
    copied for a file is the link its popover shows. *)
Theorem share_link_identifies_file (f g : FileMetadata) :
  id f <> id g ->
  share_link (id f) <> share_link (id g) /\ share_link (id f) = shown_link f.
Proof.
  intros Hne. split; [|reflexivity].
  intros H. apply Hne. unfold share_link in H.
  now apply append_inj_head, bigint_toString_inj in H.
Qed.

Lemma share_link_identifies_file_witness :
  share_link 7 <> share_link (-7) /\ share_link 7 = "https://fileshare.example.com/7".
Proof.
  apply (share_link_identifies_file (mkFileMetadata 7 "a.txt" 1)
           (mkFileMetadata (-7) "b.txt" 2)).
  cbn. lia.
Defined.

Lemma copy_step_invariant (e : CopyLink.Event) (s : CopyLink.State) :
  indicator_has_timer s -> indicator_has_timer (CopyLink.step e s).
Proof.
  unfold indicator_has_timer. intros H. destruct s as [m ci cb ts tr]. cbn in H.
  destruct e as [fileId index granted| |]; cbn.
  - destruct m; cbn; [|exact H]. destruct granted; cbn; intros _ _; now destruct ts.
  - destruct ts as [|t rest]; cbn; [exact H|]. destruct m; cbn; [congruence|discriminate].
  - discriminate.
Qed.

Lemma copy_run_invariant (es : list CopyLink.Event) (s : CopyLink.State) :
  indicator_has_timer s -> indicator_has_timer (CopyLink.run es s).
Proof.
  revert s. induction es as [|e es IH]; intros s H; cbn; auto using copy_step_invariant.
Qed.

(** X10. While the component is mounted, a check mark is shown only with a
    timer pending that will clear it. *)
Theorem copied_index_has_timer (s : CopyLink.State) :
  CopyLink.reachable s -> CopyLink.mounted s = true ->
  CopyLink.copiedIndex s <> None -> CopyLink.timers s <> [].
Proof.
  intros [es ->]. apply copy_run_invariant. intros _ H. now contradiction H.
Qed.

Lemma copied_index_has_timer_witness :
  CopyLink.timers (CopyLink.run [CopyLink.Click 7 0%nat true] CopyLink.init) <> [].
Proof.
  apply copied_index_has_timer.
  - now exists [CopyLink.Click 7 0%nat true].
  - reflexivity.
  - discriminate.
Defined.

(** X11. A link copied while the timer of an earlier copy is pending loses
    its check mark when that earlier timer fires, with its own timer still
    pending: the timers are not tied to the copy they belong to. *)
Theorem earlier_timer_clears_later_copy
  (s : CopyLink.State) (fileId : Z) (index : nat) (granted : bool) :
  CopyLink.mounted s = true -> CopyLink.timers s <> [] ->
  let copied := CopyLink.step (CopyLink.Click fileId index granted) s in
  let fired := CopyLink.step CopyLink.TimerFired copied in
  CopyLink.copiedIndex copied = Some index /\
  CopyLink.copiedIndex fired = None /\
  CopyLink.timers fired <> [] /\ last (CopyLink.timers fired) 0 = 2000.
Proof.
  intros Hm Ht. destruct s as [m ci cb ts tr]. cbn in Hm, Ht. subst m.
  destruct ts as [|t rest]; [contradiction|].
  destruct granted; cbn; repeat split; try (now destruct rest);
    rewrite last_last; reflexivity.
Qed.

Lemma earlier_timer_clears_later_copy_witness :
  CopyLink.copiedIndex
    (CopyLink.run [CopyLink.Click 7 0%nat true; CopyLink.Click 8 1%nat true;
                   CopyLink.TimerFired] CopyLink.init) = None.
Proof.
  apply (earlier_timer_clears_later_copy
           (CopyLink.run [CopyLink.Click 7 0%nat true] CopyLink.init) 8 1%nat true).
  - reflexivity.
  - discriminate.
Defined.

(** X12. [handleCopyLink] does not wait for the clipboard: when the write is
    refused the clipboard keeps its content, and the check mark, the
    success toast and the timer are the same as when it is granted. *)
Theorem copy_feedback_ignores_clipboard
  (s : CopyLink.State) (fileId : Z) (index : nat) :
  CopyLink.mounted s = true ->
  let refused := CopyLink.step (CopyLink.Click fileId index false) s in
  let granted := CopyLink.step (CopyLink.Click fileId index true) s in
  CopyLink.clipboard refused = CopyLink.clipboard s /\
  CopyLink.clipboard granted = Some (share_link fileId) /\
  CopyLink.copiedIndex refused = Some index /\
  CopyLink.trace refused =
    (CopyLink.trace s ++
     [CopyLink.WriteText (share_link fileId); CopyLink.SetCopiedIndex (Some index);
      CopyLink.ToastSuccess "Link copied to clipboard!";
      CopyLink.SetTimeout 2000])%list /\
  CopyLink.trace refused = CopyLink.trace granted /\
  CopyLink.timers refused = CopyLink.timers granted.
Proof.
  intros Hm. destruct s as [m ci cb ts tr]. cbn in Hm. subst m.
  cbn. rewrite <- !app_assoc. repeat split; reflexivity.
Qed.

Lemma copy_feedback_ignores_clipboard_witness :
  CopyLink.clipboard (CopyLink.step (CopyLink.Click 7 0%nat false) CopyLink.init) = None /\
  CopyLink.copiedIndex (CopyLink.step (CopyLink.Click 7 0%nat false) CopyLink.init) = Some 0%nat.
Proof.
  destruct (copy_feedback_ignores_clipboard CopyLink.init 7 0%nat eq_refl)
    as (H1 & _ & H2 & _).
  split; assumption.
Defined.

(** ** Download: single flight and what is saved *)

Ltac download_effects_done :=
  cbn [existsb is_getFileContent_call is_save orb];
  split;
  [ intros X; try discriminate X; (split; [reflexivity|do 2 eexists; reflexivity])
  | intros X; try discriminate X; (split; [reflexivity|do 2 eexists; reflexivity]) ].

(** What a task can emit, by event: a call of [getFileContent] only when a
    download is clicked and none is pending, a save only when a pending
    download is answered with a file. *)
Lemma emitted_download_effects (e : Event) (s : State) :
  Inv s ->
  (existsb is_getFileContent_call (emitted e s) = true ->
   isPending (getFileContentMutation s) = false /\
   exists i n, e = ClickDownload i n) /\
  (existsb is_save (emitted e s) = true ->
   isPending (getFileContentMutation s) = true /\
   exists n c, e = GetFileContentSettled (Fulfilled (Some (n, c)))).
Proof.
  intros H. unfold emitted.
  destruct e as [x f|r| |file|r| | |i n|r|i| | | |o].
  - rewrite step_frame by auto using core_ActorChanged.
    destruct s as [m ? ? ? a0 af ? ? ? ? ? ? ?]; destruct x, f, a0, af, m;
      norm_tr; download_effects_done.
  - rewrite step_frame by auto using core_FilesSettled.
    destruct s as [m ? ? ? a0 af [qd qi [k|]] ? ? ? ? ? ?]; norm_tr;
      [destruct (k r); norm_tr|]; download_effects_done.
  - inv_cases s H; destruct gm; try discriminate Hqg; norm_tr; download_effects_done.
  - inv_cases s H; destruct gm; try discriminate Hqg; destruct file, a; norm_tr;
      download_effects_done.
  - inv_cases s H; destruct gm; try discriminate Hqg; try rewrite (Hak _ eq_refl);
      destruct r, a, af; norm_tr; download_effects_done.
  - inv_cases s H; destruct gm; try discriminate Hqg;
      try (destruct (Qle_bool 95 (js_add cp increment)) eqn:Hle);
      eval_dispatch; try rewrite Hle; norm_tr; download_effects_done.
  - inv_cases s H; destruct gm; try discriminate Hqg; norm_tr; download_effects_done.
  - inv_cases s H; destruct gm; try discriminate Hqg; destruct a; norm_tr;
      download_effects_done.
  - inv_cases s H; destruct gm; try discriminate Hqg; try rewrite (Hgk _ eq_refl);
      destruct r as [[[n c]|]|t]; norm_tr; download_effects_done.
  - rewrite step_frame by (auto; apply core_deletion; eauto).
    destruct s as [[] ? ? ? ? ? ? ? ? ? ? ? ?]; norm_tr; download_effects_done.
  - rewrite step_frame by (auto; apply core_deletion; eauto).
    destruct s as [[] [] ? ? ? ? ? ? ? ? ? ? ?]; norm_tr; download_effects_done.
  - rewrite step_frame by (auto; apply core_deletion; eauto).
    destruct s as [[] ? ? ? ? ? ? ? ? ? ? ? ?]; norm_tr; download_effects_done.
  - inv_cases s H; destruct gm; try discriminate Hqg; norm_tr; download_effects_done.
  - rewrite step_frame by (auto; apply core_deletion; eauto 6).
    destruct s as [[] ? ? ? ? ? ? ? ? ? ? ? ?], o; norm_tr; download_effects_done.
Qed.

(** X13. While a download is pending every Download button is disabled and a
    click on one leaves the state as it is; a task calls [getFileContent]
    only for a click made while no download is pending, and every
    settlement enables the buttons again. *)
Theorem download_single_flight (s : State) :
  reachable s ->
  (isPending (getFileContentMutation s) = true ->
   download_button_disabled s = true /\
   (forall i n, step (ClickDownload i n) s = s) /\
   (forall r, download_button_disabled (step (GetFileContentSettled r) s) = false)) /\
  (forall e, existsb is_getFileContent_call (emitted e s) = true ->
   isPending (getFileContentMutation s) = false /\ exists i n, e = ClickDownload i n).
Proof.
  intros HR. pose proof (reachable_Inv s HR) as HI. split.
  - intros Hp. split; [exact Hp|]. split.
    + intros i n. apply step_noop; auto. cbn.
      unfold download_button_disabled. rewrite Hp. now rewrite andb_false_r.
    + intros r. pose proof (download_settle_step s r HI Hp) as H. cbv zeta in H.
      destruct H as [_ H]. unfold download_button_disabled.
      destruct r as [[[n c]|]|t]; destruct H as [_ ->]; reflexivity.
  - intros e He. now apply emitted_download_effects.
Qed.

Lemma download_single_flight_witness :
  step (ClickDownload 43 "other.txt") (step (ClickDownload 42 "old-name.txt") connected_state)
  = step (ClickDownload 42 "old-name.txt") connected_state.
Proof.
  assert (HR : reachable (step (ClickDownload 42 "old-name.txt") connected_state)).
  { apply reachable_step.
    now exists [ActorChanged (Some backendActor) false;
                FilesSettled (Fulfilled [mkFileMetadata 42 "old-name.txt" 3])]. }
  destruct (download_single_flight _ HR) as [H _].
  destruct (H eq_refl) as (_ & H1 & _). apply H1.
Defined.

(** X14. Nothing is ever saved unless a pending download is answered with a
    file: a task that saves is the settlement of a pending [getFileContent]
    with a present result, and it saves that result under its name. *)
Theorem save_only_for_present_answer (s : State) (e : Event) :
  reachable s -> existsb is_save (emitted e s) = true ->
  isPending (getFileContentMutation s) = true /\
  exists n c,
    e = GetFileContentSettled (Fulfilled (Some (n, c))) /\
    emitted e s =
      [SaveAs n c; ToastSuccess "Download started!" (Some ("Downloading " ++ n))].
Proof.
  intros HR He. pose proof (reachable_Inv s HR) as HI.
  destruct (emitted_download_effects e s HI) as [_ H].
  destruct (H He) as (Hp & n & c & ->). split; [exact Hp|].
  exists n, c. split; [reflexivity|].
  pose proof (download_settle_step s (Fulfilled (Some (n, c))) HI Hp) as Hs.
  cbv zeta in Hs. apply Hs.
Qed.

Lemma save_only_for_present_answer_witness :
  exists n c,
    GetFileContentSettled (Fulfilled (Some ("new-name.txt", [Byte.x68]))) =
      GetFileContentSettled (Fulfilled (Some (n, c))) /\
    emitted (GetFileContentSettled (Fulfilled (Some ("new-name.txt", [Byte.x68]))))
            (step (ClickDownload 42 "old-name.txt") connected_state) =
      [SaveAs n c; ToastSuccess "Download started!" (Some ("Downloading " ++ n))].
Proof.
  apply (save_only_for_present_answer
           (step (ClickDownload 42 "old-name.txt") connected_state)).
  - apply reachable_step.
    now exists [ActorChanged (Some backendActor) false;
                FilesSettled (Fulfilled [mkFileMetadata 42 "old-name.txt" 3])].
  - reflexivity.
Defined.

(** X15. Choosing no file (an empty selection) only resets the input: no
    flag is set, no notification is shown and the actor is not called. *)
Theorem empty_selection_only_resets_input (s : State) :
  reachable s -> mounted s = true -> chooserOpen s = true ->
  let s' := step (FileChosen None) s in
  emitted (FileChosen None) s = [ResetInputValue] /\
  isUploading s' = false /\ uploadProgress s' = uploadProgress s /\
  addFileMutation s' = addFileMutation s /\ interval s' = None /\
  chooserOpen s' = false /\ upload_button_disabled s' = false.
Proof.
  intros HR Hm Hc. pose proof (reachable_Inv s HR) as HI.
  inv_cases s HI; try discriminate Hm; try discriminate Hc;
    destruct gm; try discriminate Hqg; norm_tr; repeat split; reflexivity.
Qed.

Lemma empty_selection_only_resets_input_witness :
  emitted (FileChosen None) chooser_state = [ResetInputValue].
Proof.
  apply (empty_selection_only_resets_input chooser_state).
  - now exists [ActorChanged (Some backendActor) false; ClickUpload].
  - reflexivity.
  - reflexivity.
Defined.

(** ** The percentage shown *)

Lemma ProgressRange_core (s s' : State) :
  core s' = core s -> ProgressRange s -> ProgressRange s'.
Proof.
  unfold core. intros [= _ Hu _ _ _ _ Hi _] [H1 H2].
  constructor; rewrite ?Hu, ?Hi; assumption.
Qed.

Ltac range_progress_field :=
  first [ assumption
        | left; split; unfold Qle; cbn; lia
        | right; reflexivity ].

Ltac range_interval_field :=
  let cp := fresh "cp" in
  let Hx := fresh "Hx" in
  intros cp Hx;
  first [ discriminate Hx
        | injection Hx as <-; exists 0%nat; split; [lia|reflexivity]
        | eauto ].

Ltac range_done :=
  norm; constructor; [range_progress_field|range_interval_field].

Lemma step_ProgressRange (e : Event) (s : State) :
  Inv s -> ProgressRange s -> ProgressRange (step e s).
Proof.
  intros H [Hp Hc].
  destruct e as [x f|r| |file|r| | |i n|r|i| | | |o].
  - apply (ProgressRange_core s); [|constructor; assumption].
    apply step_core_frame; [exact H|apply core_ActorChanged].
  - apply (ProgressRange_core s); [|constructor; assumption].
    apply step_core_frame; [exact H|apply core_FilesSettled].
  - inv_cases s H; destruct gm; try discriminate Hqg; cbn in Hp, Hc; range_done.
  - inv_cases s H; destruct gm; try discriminate Hqg; cbn in Hp, Hc;
      destruct file, a; range_done.
  - inv_cases s H; destruct gm; try discriminate Hqg; cbn in Hp, Hc;
      try rewrite (Hak _ eq_refl); destruct r, a, af; range_done.
  - inv_cases s H; destruct gm; try discriminate Hqg; cbn in Hp, Hc;
      try (destruct (Qle_bool 95 (js_add cp increment)) eqn:Hle);
      eval_dispatch; try rewrite Hle.
    all: lazymatch goal with
         | Hf : Qle_bool 95 _ = false |- ProgressRange ?x =>
             let x' := eval norm_red in x in change x with x';
             destruct (Hc cp eq_refl) as (n & Hn & ->); rewrite <- ramp_S in Hf |- *;
             assert (Hn' : (S n < 50)%nat)
               by (destruct (Nat.eq_dec (S n) 50) as [E|E]; [|lia];
                   rewrite E in Hf; destruct ramp_table as [_ Ht]; congruence);
             destruct (ramp_below (S n) Hn') as (_ & H0 & _);
             apply Qle_bool_false in Hf;
             (constructor; cbn [uploadProgress interval];
              [ left; split; assumption
              | intros cp' [= <-]; exists (S n); split; [exact Hn'|reflexivity] ])
         | _ => range_done
         end.
  - inv_cases s H; destruct gm; try discriminate Hqg; cbn in Hp, Hc; range_done.
  - inv_cases s H; destruct gm; try discriminate Hqg; cbn in Hp, Hc; destruct a;
      range_done.
  - inv_cases s H; destruct gm; try discriminate Hqg; cbn in Hp, Hc;
      try rewrite (Hgk _ eq_refl); destruct r as [[[n c]|]|t]; range_done.
  - apply (ProgressRange_core s); [|constructor; assumption].
    apply step_core_frame; [exact H|apply core_deletion; eauto].
  - apply (ProgressRange_core s); [|constructor; assumption].
    apply step_core_frame; [exact H|apply core_deletion; eauto].
  - apply (ProgressRange_core s); [|constructor; assumption].
    apply step_core_frame; [exact H|apply core_deletion; eauto].
  - inv_cases s H; destruct gm; try discriminate Hqg; cbn in Hp, Hc; range_done.
  - apply (ProgressRange_core s); [|constructor; assumption].
    apply step_core_frame; [exact H|apply core_deletion; eauto 6].
Qed.

Lemma ProgressRange_init : ProgressRange init.
Proof.
  constructor; cbn; [left; split; unfold Qle; cbn; lia|discriminate].
Qed.

Lemma run_ProgressRange (es : list Event) (s : State) :
  Inv s -> ProgressRange s -> ProgressRange (run es s).
Proof.
  revert s. induction es as [|e es IH]; intros s HI HP; [exact HP|].
  cbn [run]. apply IH; auto using step_Inv, step_ProgressRange.
Qed.

Lemma Math_round_range (x : Q) : (0 <= x <= 95)%Q -> 0 <= Math_round x <= 95.
Proof.
  intros [H0 H95]. unfold Math_round. split.
  - change 0 with (Qfloor (1 # 2)). apply Qfloor_resp_le. lra.
  - change 95 with (Qfloor (191 # 2)). apply Qfloor_resp_le. lra.
Qed.

(** X16. The percentage the progress bar shows is an integer from 0 to 95,
    or it is 100 and the last upload succeeded; while an upload is pending
    it is at most 95. *)
Theorem progress_label_range (s : State) :
  reachable s ->
  (0 <= progress_label s <= 95 \/
   (progress_label s = 100 /\ isSuccess (addFileMutation s) = true)) /\
  (isPending (addFileMutation s) = true ->
   progress_bar_shown s = true /\ 0 <= progress_label s <= 95).
Proof.
  intros HR. pose proof (reachable_Inv s HR) as HI.
  assert (HP : ProgressRange s).
  { destruct HR as [es ->]. apply run_ProgressRange; auto using Inv_init, ProgressRange_init. }
  destruct HP as [[Hr|H100] _]; unfold progress_label.
  - split; [left; now apply Math_round_range|].
    intros Hp. split; [apply (inv_pending s HI Hp)|now apply Math_round_range].
  - pose proof (inv_progress s HI H100) as Hs.
    assert (E : Math_round (uploadProgress s) = 100).
    { unfold Math_round. rewrite H100. reflexivity. }
    split; [right; now split|].
    intros Hp. destruct (addFileMutation s); discriminate.
Qed.

Lemma progress_label_range_witness :
  0 <= progress_label (ticks 7 uploading_state) <= 95.
Proof.
  assert (HR : reachable (ticks 7 uploading_state)).
  { apply reachable_ticks.
    now exists [ActorChanged (Some backendActor) false; FilesSettled (Fulfilled []);
                ClickUpload; FileChosen (Some (mkFile "report.pdf" 204800))]. }
  destruct (progress_label_range _ HR) as [_ H]. apply H. reflexivity.
Defined.

(** ** The interval after the settlement *)

(** The task that settles a pending upload, before the render. *)
Lemma settle_task (s : State) (c0 : Q) (r : Settled FileMetadata) :
  Inv s -> mounted s = true -> isPending (addFileMutation s) = true ->
  interval s = Some c0 ->
  let s1 := task (AddFileSettled r) s in
  mounted s1 = true /\ interval s1 = Some c0 /\ uploadProgress s1 = settled_progress r /\
  isPending (addFileMutation s1) = false /\ settling (addFileMutation s1) = false /\
  settling (getFileContentMutation s1) = false /\
  exists l, trace s1 = (trace s ++ l)%list /\ existsb is_clearInterval l = false.
Proof.
  intros HI Hm Hp Hi.
  inv_cases s HI; try discriminate Hm; try discriminate Hp; try discriminate Hi;
    cbn in Hi; injection Hi as <-;
    destruct gm; try discriminate Hqg; try rewrite (Hak _ eq_refl);
    destruct r, a, af; unfold task; norm_tr;
    (repeat split; try reflexivity); eexists; split; reflexivity.
Qed.

(** A tick in a state that no render has caught up with. *)
Lemma task_tick (s : State) (cp : Q) :
  mounted s = true -> interval s = Some cp ->
  settling (addFileMutation s) = false -> settling (getFileContentMutation s) = false ->
  let s' := task IntervalTick s in
  uploadProgress s' = tick_progress cp /\ mounted s' = true /\
  isPending (addFileMutation s') = isPending (addFileMutation s) /\
  trace s' = (trace s ++ if Qle_bool 95 (js_add cp increment)
                         then [SetUploadProgress 95; ClearInterval]
                         else [SetUploadProgress (js_add cp increment)])%list.
Proof.
  intros Hm Hi Ha Hg s'. subst s'. unfold task, tick_progress. cbn [dispatch]. rewrite Hi.
  destruct s as [m ftd up iu a af fq am gm co iv ts tr]. cbn in Hm, Hi, Ha, Hg. subst m iv.
  unfold interval_callback.
  destruct (Qle_bool 95 (js_add cp increment)) eqn:E;
    destruct am; try discriminate Ha; destruct gm; try discriminate Hg;
    norm; rewrite <- ?app_assoc; repeat split; reflexivity.
Qed.

(** The commit of the render that follows a settlement runs the cleanup of
    the effect and does not run the effect again. *)
Lemma commit_after_settlement (old new : State) :
  mounted new = true -> effect_condition old = true ->
  isPending (addFileMutation new) = false ->
  commit old new = clearInterval new.
Proof.
  intros Hm Hc Hp. unfold effect_condition in Hc. apply andb_prop in Hc.
  destruct Hc as [Hu Hq].
  destruct old as [m ftd up iu a af fq am gm co iv ts tr].
  destruct new as [m' ftd' up' iu' a' af' fq' am' gm' co' iv' ts' tr'].
  cbn in Hm, Hu, Hq, Hp. subst m' iu.
  unfold commit, progress_cleanup, progress_effect, effect_condition.
  cbn [mounted isUploading addFileMutation negb]. rewrite Hq, Hp.
  destruct iu'; cbn [Bool.eqb andb]; rewrite ?andb_false_r;
    unfold clearInterval, seq_handler, log, with_interval; cbn; rewrite ?Hp;
    rewrite ?andb_false_r; reflexivity.
Qed.

Lemma clearInterval_fields (x : State) :
  uploadProgress (clearInterval x) = uploadProgress x /\ interval (clearInterval x) = None /\
  trace (clearInterval x) = (trace x ++ [ClearInterval])%list.
Proof. destruct x. repeat split; reflexivity. Qed.

(** The callback of the reset timer in an unmounted component: it runs and
    calls the two setters. *)
Lemma timeout_after_unmount (g : State) (t : Z) (rest : list Z) :
  Inv g -> mounted g = false -> timeouts g = t :: rest ->
  emitted TimeoutFired g = [SetIsUploading false; SetUploadProgress 0].
Proof.
  intros HI Hm Ht.
  inv_cases g HI; try discriminate Hm; try discriminate Ht;
    destruct gm; try discriminate Hqg; norm_tr; reflexivity.
Qed.

Lemma unmount_keeps_timeouts (s : State) :
  Inv s -> mounted (step Unmount s) = false /\ timeouts (step Unmount s) = timeouts s.
Proof.
  intros HI. inv_cases s HI; destruct gm; try discriminate Hqg; norm; split; reflexivity.
Qed.

Lemma ramp_positive :
  forallb (fun n => match (0 ?= ramp n)%Q with Lt => true | _ => false end) (seq 1 50) = true.
Proof. vm_compute. reflexivity. Qed.

Lemma tick_progress_range (n : nat) :
  (n < 50)%nat -> (0 < tick_progress (ramp n) <= 95)%Q.
Proof.
  intros Hn. unfold tick_progress. rewrite <- ramp_S.
  destruct (Qle_bool 95 (ramp (S n))) eqn:E; [split; [reflexivity|apply Qle_refl]|].
  assert (Hn' : (S n < 50)%nat).
  { destruct (Nat.eq_dec (S n) 50) as [E50|]; [|lia].
    rewrite E50 in E. destruct ramp_table as [_ Ht]. congruence. }
  split; [|now apply Qle_bool_false].
  pose proof ramp_positive as Hpos. rewrite forallb_forall in Hpos.
  specialize (Hpos (S n)). apply Qlt_alt.
  destruct (0 ?= ramp (S n))%Q; try reflexivity;
    (assert (Hin : In (S n) (seq 1 50)) by (apply in_seq; lia));
    apply Hpos in Hin; discriminate Hin.
Qed.

(** C9. The interval is not released as soon as the upload settles. The
    task that settles a pending [addFile] sets the progress (100 on
    success, 0 on failure) and calls no [clearInterval]: the interval stays
    registered until React commits the next render and runs the cleanup of
    the effect. A tick that is due before that commit runs the callback
    after the session has ended and overwrites the progress with the next
    value of the ramp, above 0 and at most 95, which is what the committed
    state then holds; had the render been committed before the tick, the
    tick would find no interval and the progress would stay. The 500 ms
    reset timer is never cancelled either: after an unmount its callback
    still runs and calls both setters. *)
Theorem C9_interval_outlives_settlement
  (s : State) (cp : Q) (r : Settled FileMetadata) (d : FileMetadata) :
  reachable s -> mounted s = true -> isPending (addFileMutation s) = true ->
  interval s = Some cp ->
  let settled := task (AddFileSettled r) s in
  let late := batch [AddFileSettled r; IntervalTick] s in
  let gone := step Unmount (step (AddFileSettled (Fulfilled d)) s) in
  (interval settled = Some cp /\
   isPending (addFileMutation settled) = false /\
   uploadProgress settled = settled_progress r /\
   exists l, trace settled = (trace s ++ l)%list /\ existsb is_clearInterval l = false) /\
  (uploadProgress (task IntervalTick settled) = tick_progress cp /\
   uploadProgress late = tick_progress cp /\
   (0 < tick_progress cp <= 95)%Q /\
   ~ (uploadProgress late == settled_progress r)%Q /\
   interval late = None /\
   exists l, emitted_by [AddFileSettled r; IntervalTick] s = (l ++ [ClearInterval])%list) /\
  uploadProgress (step IntervalTick (step (AddFileSettled r) s)) = settled_progress r /\
  (mounted gone = false /\ timeouts gone = [500] /\
   emitted TimeoutFired gone = [SetIsUploading false; SetUploadProgress 0]).
Proof.
  intros HR Hm Hp Hi settled late gone. pose proof (reachable_Inv s HR) as HI.
  destruct (settle_task s cp r HI Hm Hp Hi) as (Hm1 & Hi1 & Hp1 & Hq1 & Ha1 & Hg1 & l1 & Ht1 & Hl1).
  fold settled in Hm1, Hi1, Hp1, Hq1, Ha1, Hg1, Ht1.
  destruct (task_tick settled cp Hm1 Hi1 Ha1 Hg1) as (Hp2 & Hm2 & Hq2 & Ht2).
  assert (Hc : effect_condition s = true).
  { apply (inv_interval s HI). rewrite Hi. discriminate. }
  assert (Hlate : late = clearInterval (task IntervalTick settled)).
  { subst late. unfold batch. cbn [fold_left]. fold settled.
    apply commit_after_settlement; [exact Hm2|exact Hc|]. rewrite Hq2. exact Hq1. }
  destruct (clearInterval_fields (task IntervalTick settled)) as (Hu3 & Hi3 & Ht3).
  assert (Hrange : (0 < tick_progress cp <= 95)%Q).
  { assert (HP : ProgressRange s).
    { destruct HR as [es ->]. apply run_ProgressRange; auto using Inv_init, ProgressRange_init. }
    destruct (range_interval s HP cp Hi) as (n & Hn & ->). now apply tick_progress_range. }
  split; [|split; [|split]].
  - split; [exact Hi1|]. split; [exact Hq1|]. split; [exact Hp1|]. now exists l1.
  - split; [exact Hp2|]. rewrite Hlate, Hu3, Hi3.
    split; [exact Hp2|]. split; [exact Hrange|]. split; [|split; [reflexivity|]].
    + rewrite Hp2. destruct Hrange as [H0 H95]. intros E.
      destruct r; cbn [settled_progress] in E; rewrite E in H0, H95.
      * revert H95. unfold Qle. cbn. lia.
      * revert H0. unfold Qlt. cbn. lia.
    + unfold emitted_by. fold late. rewrite Hlate, Ht3, Ht2, Ht1.
      rewrite <- !app_assoc. rewrite skipn_length_app.
      eexists. rewrite !app_assoc. reflexivity.
  - destruct (pending_MPending s HI Hp) as [k Hk].
    assert (HI1 : Inv (step (AddFileSettled r) s)) by now apply step_Inv.
    destruct r as [d0|cause].
    + destruct (upload_success_step s d0 k HI Hm Hk) as (_ & Hu & _ & _ & Hn & _).
      rewrite tick_noop by assumption. exact Hu.
    + destruct (upload_failure_step s cause k HI Hm Hk) as (_ & _ & _ & Hu & _ & Hn & _).
      rewrite tick_noop by assumption. exact Hu.
  - destruct (pending_MPending s HI Hp) as [k Hk].
    assert (HI1 : Inv (step (AddFileSettled (Fulfilled d)) s)) by now apply step_Inv.
    destruct (upload_success_step s d k HI Hm Hk) as (_ & _ & _ & Hts & _).
    destruct (unmount_keeps_timeouts _ HI1) as [Hmg Htg]. fold gone in Hmg, Htg.
    rewrite Hts in Htg.
    assert (HIg : Inv gone) by (subst gone; now apply step_Inv).
    split; [exact Hmg|]. split; [exact Htg|].
    exact (timeout_after_unmount gone 500 [] HIg Hmg Htg).
Qed.

Lemma C9_interval_outlives_settlement_witness :
  uploadProgress (task (AddFileSettled (Fulfilled (mkFileMetadata 7 "report.pdf" 204800)))
                    (ticks 2 uploading_state)) = 100%Q /\
  uploadProgress (batch [AddFileSettled (Fulfilled (mkFileMetadata 7 "report.pdf" 204800));
                         IntervalTick] (ticks 2 uploading_state)) =
    1604407367250739 # 281474976710656.
Proof.
  assert (HR : reachable (ticks 2 uploading_state)).
  { apply reachable_ticks.
    now exists [ActorChanged (Some backendActor) false; FilesSettled (Fulfilled []);
                ClickUpload; FileChosen (Some (mkFile "report.pdf" 204800))]. }
  destruct (C9_interval_outlives_settlement (ticks 2 uploading_state) (ramp 2)
              (Fulfilled (mkFileMetadata 7 "report.pdf" 204800))
              (mkFileMetadata 7 "report.pdf" 204800) HR eq_refl eq_refl eq_refl)
    as ((_ & _ & H1 & _) & (_ & H2 & _) & _).
  split; [exact H1|]. rewrite H2. vm_compute. reflexivity.
Defined.

(** ** Uploads and downloads side by side; the next upload *)

(** X17. A task of a download (the click, the answer) leaves the upload as
    it is (its flag, its progress, its interval and timers, its mutation,
    the file chooser) and the files query too; a task of an upload leaves
    the download mutation as it is. *)
Theorem upload_and_download_are_independent (s : State) (e : Event) :
  reachable s ->
  (is_download_event e = true -> upload_view (step e s) = upload_view s) /\
  (is_upload_event e = true ->
   getFileContentMutation (step e s) = getFileContentMutation s).
Proof.
  intros HR. pose proof (reachable_Inv s HR) as H.
  destruct e as [x f|r| |file|r| | |i n|r|i| | | |o]; cbn [is_download_event is_upload_event];
    (split; [try discriminate|try discriminate]); intros _.
  - inv_cases s H; destruct gm; try discriminate Hqg; norm; reflexivity.
  - inv_cases s H; destruct gm; try discriminate Hqg; destruct file, a; norm; reflexivity.
  - inv_cases s H; destruct gm; try discriminate Hqg; try rewrite (Hak _ eq_refl);
      destruct r, a, af; norm; reflexivity.
  - inv_cases s H; destruct gm; try discriminate Hqg;
      try (destruct (Qle_bool 95 (js_add cp increment)) eqn:Hle);
      eval_dispatch; try rewrite Hle; norm; reflexivity.
  - inv_cases s H; destruct gm; try discriminate Hqg; norm; reflexivity.
  - inv_cases s H; destruct gm; try discriminate Hqg; destruct a; norm; reflexivity.
  - inv_cases s H; destruct gm; try discriminate Hqg; try rewrite (Hgk _ eq_refl);
      destruct r as [[[n c]|]|t]; norm; reflexivity.
Qed.

Lemma upload_and_download_are_independent_witness :
  upload_view (step (ClickDownload 42 "old-name.txt") uploading_state) =
  upload_view uploading_state.
Proof.
  apply (upload_and_download_are_independent uploading_state
           (ClickDownload 42 "old-name.txt")).
  - now exists [ActorChanged (Some backendActor) false; FilesSettled (Fulfilled []);
                ClickUpload; FileChosen (Some (mkFile "report.pdf" 204800))].
  - reflexivity.
Defined.

Lemma settle_keeps_actor (s : State) (r : Settled FileMetadata) :
  Inv s ->
  actor (step (AddFileSettled r) s) = actor s /\
  mounted (step (AddFileSettled r) s) = mounted s.
Proof.
  intros H. inv_cases s H; destruct gm; try discriminate Hqg;
    try rewrite (Hak _ eq_refl); destruct r, a, af; norm; split; reflexivity.
Qed.

Lemma timeout_keeps_actor (s : State) :
  Inv s ->
  actor (step TimeoutFired s) = actor s /\ mounted (step TimeoutFired s) = mounted s.
Proof.
  intros H. inv_cases s H; destruct gm; try discriminate Hqg; norm; split; reflexivity.
Qed.

Lemma click_upload_step (s : State) :
  Inv s -> mounted s = true -> isUploading s = false ->
  let s' := step ClickUpload s in
  chooserOpen s' = true /\ mounted s' = true /\ actor s' = actor s.
Proof.
  intros H Hm Hu. inv_cases s H; try discriminate Hm; try discriminate Hu;
    destruct gm; try discriminate Hqg; norm; repeat split; reflexivity.
Qed.

Lemma run_cons (e : Event) (es : list Event) (s : State) :
  run (e :: es) s = run es (step e s).
Proof. reflexivity. Qed.

Lemma run_nil (s : State) : run [] s = s.
Proof. reflexivity. Qed.

Lemma start_from_idle (s : State) (f : File) :
  Inv s -> mounted s = true -> isUploading s = false -> actor s <> None ->
  upload_started (step (FileChosen (Some f)) (step ClickUpload s)).
Proof.
  intros HI Hm Hu Ha.
  destruct (click_upload_step s HI Hm Hu) as (Hc & Hm' & Ha').
  assert (HI' : Inv (step ClickUpload s)) by now apply step_Inv.
  pose proof (upload_start_step (step ClickUpload s) f HI' Hm' Hc) as H.
  cbv zeta in H. rewrite Ha' in H. destruct (actor s); [|contradiction].
  destruct H as (_ & H1 & H2 & H3 & H4). repeat split; assumption.
Qed.

(** X18. After a failed upload a new one can be started at once; after a
    successful one the button stays disabled until the 500 ms timer has
    fired (a click and a file change before that change nothing), and then
    a new upload starts from progress 0 with a fresh interval. *)
Theorem upload_again_after_settlement
  (s : State) (f : File) (d : FileMetadata) (t : Thrown) :
  reachable s -> mounted s = true -> isPending (addFileMutation s) = true ->
  actor s <> None ->
  upload_started
    (run [AddFileSettled (RejectedWith t); ClickUpload; FileChosen (Some f)] s) /\
  run [AddFileSettled (Fulfilled d); ClickUpload; FileChosen (Some f)] s =
    step (AddFileSettled (Fulfilled d)) s /\
  upload_started
    (run [AddFileSettled (Fulfilled d); TimeoutFired; ClickUpload;
          FileChosen (Some f)] s).
Proof.
  intros HR Hm Hp Ha. pose proof (reachable_Inv s HR) as HI.
  destruct (pending_MPending s HI Hp) as [k Hk].
  split; [|split].
  - rewrite !run_cons, run_nil.
    destruct (upload_failure_step s t k HI Hm Hk) as (_ & _ & Hu & _).
    destruct (settle_keeps_actor s (RejectedWith t) HI) as [Ea Em].
    apply start_from_idle.
    + apply step_Inv, HI.
    + rewrite Em. exact Hm.
    + exact Hu.
    + rewrite Ea. exact Ha.
  - rewrite !run_cons, run_nil.
    destruct (upload_success_step s d k HI Hm Hk) as (_ & _ & Hu & _).
    assert (HI1 : Inv (step (AddFileSettled (Fulfilled d)) s)) by apply step_Inv, HI.
    assert (Hc : chooserOpen (step (AddFileSettled (Fulfilled d)) s) = false).
    { destruct (chooserOpen (step (AddFileSettled (Fulfilled d)) s)) eqn:E; [|reflexivity].
      rewrite (inv_chooser _ HI1 E) in Hu. discriminate Hu. }
    assert (E1 : step ClickUpload (step (AddFileSettled (Fulfilled d)) s) =
                 step (AddFileSettled (Fulfilled d)) s).
    { apply step_noop; [exact HI1|]. cbn [dispatch].
      unfold upload_button_disabled. rewrite Hu, andb_false_r. reflexivity. }
    rewrite E1. apply step_noop; [exact HI1|]. cbn [dispatch].
    rewrite Hc, andb_false_r. reflexivity.
  - rewrite !run_cons, run_nil.
    destruct (upload_success_step s d k HI Hm Hk) as (_ & _ & _ & Ht & _ & _ & Hm1).
    assert (HI1 : Inv (step (AddFileSettled (Fulfilled d)) s)) by apply step_Inv, HI.
    assert (Hne : timeouts (step (AddFileSettled (Fulfilled d)) s) <> [])
      by (rewrite Ht; discriminate).
    destruct (timeout_step _ HI1 Hm1 Hne) as (_ & Hu & _).
    destruct (settle_keeps_actor s (Fulfilled d) HI) as [Ea _].
    destruct (timeout_keeps_actor _ HI1) as [Ea2 Em2].
    apply start_from_idle.
    + apply step_Inv, HI1.
    + rewrite Em2. exact Hm1.
    + exact Hu.
    + rewrite Ea2, Ea. exact Ha.
Qed.

Lemma upload_again_after_settlement_witness :
  upload_started
    (run [AddFileSettled (RejectedWith (JsError "quota exceeded")); ClickUpload;
          FileChosen (Some (mkFile "x.bin" 10))] pending_x_bin).
Proof.
  assert (HR : reachable pending_x_bin).
  { now exists [ActorChanged (Some backendActor) false; FilesSettled (Fulfilled []);
                ClickUpload; FileChosen (Some (mkFile "x.bin" 10))]. }
  assert (Ha : actor pending_x_bin <> None) by (vm_compute; discriminate).
  destruct (upload_again_after_settlement pending_x_bin (mkFile "x.bin" 10)
              (mkFileMetadata 7 "x.bin" 10) (JsError "quota exceeded")
              HR eq_refl eq_refl Ha) as (H & _).
  exact H.
Defined.

(** ** Uploads and downloads without an actor *)

Ltac no_call_done :=
  norm_tr; split; reflexivity.

(** X19. While [useActor] returns no actor nothing is sent to the backend:
    whatever the task (a click, a chosen file, a late answer, a timer), it
    makes no actor call. *)
Theorem without_actor_nothing_is_sent (s : State) (e : Event) :
  reachable s -> actor s = None -> without_actor e = e ->
  existsb is_call (emitted e s) = false /\ actor (step e s) = None.
Proof.
  intros HR Ha He. pose proof (reachable_Inv s HR) as H. unfold emitted.
  destruct e as [x f|r| |file|r| | |i n|r|i| | | |o].
  - destruct x; [discriminate He|].
    rewrite step_frame by auto using core_ActorChanged.
    destruct s as [m ? ? ? a0 af ? ? ? ? ? ? ?]; cbn in Ha; subst a0;
      destruct f, af, m; no_call_done.
  - rewrite step_frame by auto using core_FilesSettled.
    destruct s as [m ? ? ? a0 af [qd qi [k|]] ? ? ? ? ? ?]; cbn in Ha; subst a0; norm_tr;
      [destruct (k r); norm_tr|]; split; reflexivity.
  - inv_cases s H; cbn in Ha; subst a; destruct gm; try discriminate Hqg; no_call_done.
  - inv_cases s H; cbn in Ha; subst a; destruct gm; try discriminate Hqg; destruct file;
      no_call_done.
  - inv_cases s H; cbn in Ha; subst a; destruct gm; try discriminate Hqg;
      try rewrite (Hak _ eq_refl); destruct r, af; no_call_done.
  - inv_cases s H; cbn in Ha; subst a; destruct gm; try discriminate Hqg;
      try (destruct (Qle_bool 95 (js_add cp increment)) eqn:Hle);
      eval_dispatch; try rewrite Hle; no_call_done.
  - inv_cases s H; cbn in Ha; subst a; destruct gm; try discriminate Hqg; no_call_done.
  - inv_cases s H; cbn in Ha; subst a; destruct gm; try discriminate Hqg; no_call_done.
  - inv_cases s H; cbn in Ha; subst a; destruct gm; try discriminate Hqg;
      try rewrite (Hgk _ eq_refl); destruct r as [[[n c]|]|t]; no_call_done.
  - rewrite step_frame by (auto; apply core_deletion; eauto).
    destruct s as [[] ? ? ? a0 ? ? ? ? ? ? ? ?]; cbn in Ha; subst a0; no_call_done.
  - rewrite step_frame by (auto; apply core_deletion; eauto).
    destruct s as [[] [] ? ? a0 ? ? ? ? ? ? ? ?]; cbn in Ha; subst a0; no_call_done.
  - rewrite step_frame by (auto; apply core_deletion; eauto).
    destruct s as [[] ? ? ? a0 ? ? ? ? ? ? ? ?]; cbn in Ha; subst a0; no_call_done.
  - inv_cases s H; cbn in Ha; subst a; destruct gm; try discriminate Hqg; no_call_done.
  - rewrite step_frame by (auto; apply core_deletion; eauto 6).
    destruct s as [[] ? ? ? a0 ? ? ? ? ? ? ? ?], o; cbn in Ha; subst a0; no_call_done.
Qed.

Lemma without_actor_nothing_is_sent_witness :
  existsb is_call (emitted (FileChosen (Some (mkFile "x.bin" 10)))
                     (step ClickUpload init)) = false.
Proof.
  apply (without_actor_nothing_is_sent (step ClickUpload init)
           (FileChosen (Some (mkFile "x.bin" 10)))).
  - now exists [ClickUpload].
  - reflexivity.
  - reflexivity.
Defined.

(** X20. Without an actor an upload and a download fail in the task that
    starts them, each with its failure toast; the mutation ends in the
    error "Actor not initialized" and the button is enabled again, so that
    no interval is left running. *)
Theorem actions_without_actor_fail_at_once (s : State) :
  reachable s -> mounted s = true -> actor s = None ->
  (chooserOpen s = true -> forall f : File,
   let s' := step (FileChosen (Some f)) s in
   In (ToastError "Failed to upload file" None) (emitted (FileChosen (Some f)) s) /\
   addFileMutation s' = MError (JsError "Actor not initialized") /\
   upload_button_disabled s' = false /\ interval s' = None) /\
  (download_button_disabled s = false -> forall (i : Z) (n : string),
   let s' := step (ClickDownload i n) s in
   In (ToastError "Failed to download file" (Some "Actor not initialized"))
      (emitted (ClickDownload i n) s) /\
   getFileContentMutation s' = MError (JsError "Actor not initialized") /\
   download_button_disabled s' = false).
Proof.
  intros HR Hm Ha. pose proof (reachable_Inv s HR) as HI. split.
  - intros Hc f s'. subst s'.
    pose proof (upload_start_step s f HI Hm Hc) as H. cbv zeta in H.
    rewrite Ha in H. destruct H as (He & Hu & _ & Hi & Hf).
    rewrite He. split; [|repeat split; assumption].
    apply in_or_app. right. right. left. reflexivity.
  - intros Hd i n s'. subst s'.
    pose proof (download_click_step s i n HI Hm Hd) as H. cbv zeta in H.
    rewrite Ha in H. destruct H as (_ & _ & He & Hg).
    rewrite He. split; [left; reflexivity|].
    split; [exact Hg|]. unfold download_button_disabled. rewrite Hg. reflexivity.
Qed.

Lemma actions_without_actor_fail_at_once_witness :
  getFileContentMutation (step (ClickDownload 42 "a.txt") init) =
    MError (JsError "Actor not initialized").
Proof.
  assert (HR : reachable init) by now exists [].
  destruct (actions_without_actor_fail_at_once init HR eq_refl eq_refl) as [_ H].
  destruct (H eq_refl 42 "a.txt") as (_ & H1 & _). exact H1.
Defined.

(** ** The confirmation dialog *)

(** X21. A deletion request waits for its answer: no task other than those
    of the dialog (an upload, a download, a tick, a refetch, an unmount)
    changes the file the confirmation is open for. *)
Theorem deletion_request_survives (s : State) (e : Event) :
  reachable s -> is_deletion_event e = false ->
  deletion_state (step e s) = deletion_state s.
Proof.
  intros HR He. pose proof (reachable_Inv s HR) as H. unfold deletion_state.
  assert (E : fileToDelete (step e s) = fileToDelete s); [|now rewrite E].
  destruct e as [x f|r| |file|r| | |i n|r|i| | | |o]; try discriminate He.
  - rewrite step_frame by auto using core_ActorChanged.
    destruct s as [m ? ? ? a0 af ? ? ? ? ? ? ?]; destruct x, f, a0, af, m;
      norm; reflexivity.
  - rewrite step_frame by auto using core_FilesSettled.
    destruct s as [m ? ? ? a0 af [qd qi [k|]] ? ? ? ? ? ?]; norm;
      [destruct (k r); norm|]; reflexivity.
  - inv_cases s H; destruct gm; try discriminate Hqg; norm; reflexivity.
  - inv_cases s H; destruct gm; try discriminate Hqg; destruct file, a; norm; reflexivity.
  - inv_cases s H; destruct gm; try discriminate Hqg; try rewrite (Hak _ eq_refl);
      destruct r, a, af; norm; reflexivity.
  - inv_cases s H; destruct gm; try discriminate Hqg;
      try (destruct (Qle_bool 95 (js_add cp increment)) eqn:Hle);
      eval_dispatch; try rewrite Hle; norm; reflexivity.
  - inv_cases s H; destruct gm; try discriminate Hqg; norm; reflexivity.
  - inv_cases s H; destruct gm; try discriminate Hqg; destruct a; norm; reflexivity.
  - inv_cases s H; destruct gm; try discriminate Hqg; try rewrite (Hgk _ eq_refl);
      destruct r as [[[n c]|]|t]; norm; reflexivity.
  - inv_cases s H; destruct gm; try discriminate Hqg; norm; reflexivity.
Qed.

Lemma deletion_request_survives_witness :
  deletion_state
    (step (ClickDownload 42 "old-name.txt") (step (ClickDelete 42) connected_state)) =
  deletion_state (step (ClickDelete 42) connected_state).
Proof.
  apply (deletion_request_survives (step (ClickDelete 42) connected_state)
           (ClickDownload 42 "old-name.txt")).
  - apply reachable_step.
    now exists [ActorChanged (Some backendActor) false;
                FilesSettled (Fulfilled [mkFileMetadata 42 "old-name.txt" 3])].
  - reflexivity.
Defined.

(** X22. The toast "Delete functionality not yet implemented in backend" is
    shown only by a click on Confirm while a deletion request is pending;
    a confirmation with no request pending changes nothing. *)
Theorem delete_toast_only_on_confirmation (s : State) (e : Event) :
  reachable s ->
  (existsb is_delete_toast (emitted e s) = true ->
   e = ClickConfirm /\ mounted s = true /\
   exists fileId, deletion_state s = PendingConfirmation fileId) /\
  (deletion_state s = Idle -> step ClickConfirm s = s).
Proof.
  intros HR. pose proof (reachable_Inv s HR) as H. split.
  - unfold emitted, deletion_state.
    destruct e as [x f|r| |file|r| | |i n|r|i| | | |o].
    + rewrite step_frame by auto using core_ActorChanged.
      destruct s as [m ? ? ? a0 af ? ? ? ? ? ? ?]; destruct x, f, a0, af, m;
        norm_tr; discriminate.
    + rewrite step_frame by auto using core_FilesSettled.
      destruct s as [m ? ? ? a0 af [qd qi [k|]] ? ? ? ? ? ?]; norm_tr;
        [destruct (k r); norm_tr|]; discriminate.
    + inv_cases s H; destruct gm; try discriminate Hqg; norm_tr; discriminate.
    + inv_cases s H; destruct gm; try discriminate Hqg; destruct file as [[fn fs]|], a;
        norm_tr; cbn [existsb is_delete_toast orb]; discriminate.
    + inv_cases s H; destruct gm; try discriminate Hqg; try rewrite (Hak _ eq_refl);
        destruct r, a, af; norm_tr; discriminate.
    + inv_cases s H; destruct gm; try discriminate Hqg;
        try (destruct (Qle_bool 95 (js_add cp increment)) eqn:Hle);
        eval_dispatch; try rewrite Hle; norm_tr; discriminate.
    + inv_cases s H; destruct gm; try discriminate Hqg; norm_tr; discriminate.
    + inv_cases s H; destruct gm; try discriminate Hqg; destruct a; norm_tr; discriminate.
    + inv_cases s H; destruct gm; try discriminate Hqg; try rewrite (Hgk _ eq_refl);
        destruct r as [[[n c]|]|t]; norm_tr; cbn [existsb is_delete_toast orb];
        discriminate.
    + rewrite step_frame by (auto; apply core_deletion; eauto).
      destruct s as [[] ? ? ? ? ? ? ? ? ? ? ? ?]; norm_tr; discriminate.
    + rewrite step_frame by (auto; apply core_deletion; eauto).
      destruct s as [[] [fileId|] ? ? ? ? ? ? ? ? ? ? ?]; norm_tr; try discriminate.
      intros _. split; [reflexivity|]. split; [reflexivity|]. now exists fileId.
    + rewrite step_frame by (auto; apply core_deletion; eauto).
      destruct s as [[] ? ? ? ? ? ? ? ? ? ? ? ?]; norm_tr; discriminate.
    + inv_cases s H; destruct gm; try discriminate Hqg; norm_tr; discriminate.
    + rewrite step_frame by (auto; apply core_deletion; eauto 6).
      destruct s as [[] ? ? ? ? ? ? ? ? ? ? ? ?], o; norm_tr; discriminate.
  - intros Hd. apply step_noop; [exact H|]. unfold deletion_state in Hd.
    destruct s as [[] [fileId|] ? ? ? ? ? ? ? ? ? ? ?]; try discriminate Hd; reflexivity.
Qed.

Lemma delete_toast_only_on_confirmation_witness :
  step ClickConfirm connected_state = connected_state.
Proof.
  assert (HR : reachable connected_state).
  { now exists [ActorChanged (Some backendActor) false;
                FilesSettled (Fulfilled [mkFileMetadata 42 "old-name.txt" 3])]. }
  destruct (delete_toast_only_on_confirmation connected_state ClickConfirm HR) as [_ H].
  apply H. reflexivity.
Defined.

(** X23. Dismissing the dialog (it reports that it is no longer open) is a
    cancellation: the request is dropped with no toast; the report that
    the dialog has opened changes nothing; and a click on Delete for
    another file while a request is pending replaces the request. *)
Theorem dialog_dismissal_cancels (s : State) (fileId : Z) :
  reachable s -> mounted s = true ->
  step (DialogOpenChange false) s = step ClickCancel s /\
  emitted (DialogOpenChange false) s = [SetFileToDelete None] /\
  deletion_state (step (DialogOpenChange false) s) = Idle /\
  step (DialogOpenChange true) s = s /\
  deletion_state (step (ClickDelete fileId) s) = PendingConfirmation fileId.
Proof.
  intros HR Hm. pose proof (reachable_Inv s HR) as H. unfold emitted, deletion_state.
  rewrite !step_frame by (auto; apply core_deletion; eauto 6).
  destruct s as [m ? ? ? ? ? ? ? ? ? ? ? ?]; cbn in Hm; subst m.
  norm_tr. repeat split; reflexivity.
Qed.

Lemma dialog_dismissal_cancels_witness :
  deletion_state (step (DialogOpenChange false) (step (ClickDelete 42) connected_state)) =
  Idle.
Proof.
  assert (HR : reachable (step (ClickDelete 42) connected_state)).
  { apply reachable_step.
    now exists [ActorChanged (Some backendActor) false;
                FilesSettled (Fulfilled [mkFileMetadata 42 "old-name.txt" 3])]. }
  destruct (dialog_dismissal_cancels _ 7 HR eq_refl) as (_ & _ & H & _). exact H.
Defined.
